(** * Type inference for Lam4 (lam4-parser/src/language/type-system)

    A shallow embedding of [type-tags.ts], [infer.ts] and of the member
    scoping of [lam4-scope-provider], with the properties of the
    bidirectional checker stated over it.

    Syntax nodes are Langium objects compared by reference, so the embedding
    keeps them in a store indexed by node identity.  Type environments are
    objects too (a [Map] behind a handle): they live in a heap, and the
    inference functions run in a small state monad over that heap. *)

From stdpp Require Import gmap strings list fin_maps relations.

Set Warnings "-register-all".

Open Scope string_scope.
Open Scope list_scope.

(** ** Syntax nodes (generated/ast.ts, as far as the checker reads them) *)

Abbreviation NodeId := nat (only parsing).

(** A Langium cross-reference: the linked target (absent while unlinked),
    the reference text and the linker's error message, if any. *)
Record Reference := mkReference {
  ref : option NodeId;
  refText : string;
  error : option string
}.

(** The [annot] of a [BuiltinType] is one of three string literals. *)
Inductive BuiltinAnnot := AnnotString | AnnotInteger | AnnotBoolean.

(** Modelled from the spec: the operator node of a binary expression.  The
    generated [isComparisonOp] is not part of the checker's sources; the
    comparison operators are kept as one constructor, the logical and the
    arithmetic ones by their [$type], and [OtherOp] stands for any other. *)
Inductive Op :=
  OpPlus | OpMinus | OpMult | OpDiv | OpAnd | OpOr | ComparisonOp | OtherOp.

Inductive Node :=
| Ref (value : Reference)
| Join (left : NodeId) (right : NodeId)
| StringLiteral
| BooleanLiteral
| NumberLiteral
| VarDecl (varType : option NodeId) (value : NodeId)
| Param (name : string) (container : NodeId)
| ParamTypePair (param : NodeId) (type : NodeId)
| BuiltinType (annot : BuiltinAnnot)
| CustomTypeDef (annot : Reference)
| OtherTypeAnnot
| SigDecl (name : string) (parents : list Reference) (relations : list NodeId)
| Relation (name : string) (container : NodeId) (relatum : NodeId)
| BinExpr (op : Op) (left : NodeId) (right : NodeId)
| FunDecl (types : list NodeId) (params : list NodeId) (body : NodeId)
| FunctionApplication (func : NodeId) (args : list NodeId)
| PredicateDecl (params : list NodeId) (body : NodeId)
| IfThenElseExpr (condition : NodeId) (then_ : NodeId) (else_ : NodeId)
| Other.

(** [Join] is a node kind of its own ([$type === "Join"]), apart from
    [BinExpr]; the operator of a [BinExpr] is kept as a value, since the
    checker only reads its kind. *)

(** The syntax tree: every node object under its identity.  An identity
    outside the store reads as a node of a kind the checker has no rule
    for. *)
Abbreviation Ast := (gmap nat Node) (only parsing).

Definition nodeAt (ast : Ast) (n : NodeId) : Node := default Other (ast !! n).

(** [node.name], for the node kinds that carry one. *)
Definition nodeName (nd : Node) : option string :=
  match nd with
  | Param name _ | SigDecl name _ _ | Relation name _ _ => Some name
  | _ => None
  end.

(** A template literal prints an absent property as [undefined]. *)
Definition showName (o : option string) : string := default "undefined" o.

(** ** Type tags (type-tags.ts) *)

Record FunctionParameterOf (T : Type) := mkFunctionParameter {
  param : NodeId;
  type : T
}.
Arguments mkFunctionParameter {T} _ _.
Arguments param {T} _.
Arguments type {T} _.

(** [RelationTTag] is compared by reference, so a relation tag carries the
    identity [obj] of the object it was allocated as.  [ErrorTypeTag] keeps
    the offending node, which is absent when [synth] was handed a falsy
    term. *)
Inductive TypeTag :=
| BooleanTTag (literal : option NodeId)
| StringTTag (literal : option NodeId)
| UnitTTag
| IntegerTTag (literal : option NodeId)
| FunctionTTag (parameters : list (FunctionParameterOf TypeTag)) (returnType : TypeTag)
| PredicateTTag (parameters : list (FunctionParameterOf TypeTag))
| SigTTag (sig : NodeId)
| RelationTTag (obj : nat) (relationNode : NodeId) (parentSig : NodeId)
               (parentSigType : TypeTag) (relatumType : TypeTag)
| ErrorTypeTag (astNode : option NodeId) (message : string).

Abbreviation FunctionParameter := (FunctionParameterOf TypeTag).

Definition isBooleanTTag (tag : TypeTag) : bool :=
  match tag with BooleanTTag _ => true | _ => false end.
Definition isStringTTag (tag : TypeTag) : bool :=
  match tag with StringTTag _ => true | _ => false end.
Definition isUnitTTag (tag : TypeTag) : bool :=
  match tag with UnitTTag => true | _ => false end.
Definition isIntegerTTag (tag : TypeTag) : bool :=
  match tag with IntegerTTag _ => true | _ => false end.
Definition isFunctionTTag (tag : TypeTag) : bool :=
  match tag with FunctionTTag _ _ => true | _ => false end.
Definition isPredicateTTag (tag : TypeTag) : bool :=
  match tag with PredicateTTag _ => true | _ => false end.
Definition isSigTTag (tag : TypeTag) : bool :=
  match tag with SigTTag _ => true | _ => false end.
Definition isRelationTTag (tag : TypeTag) : bool :=
  match tag with RelationTTag _ _ _ _ _ => true | _ => false end.
Definition isErrorTypeTag (tag : TypeTag) : bool :=
  match tag with ErrorTypeTag _ _ => true | _ => false end.

(** The loop of [paramTagsCoincide]: it runs over the indices of
    [this.parameters] once the lengths are known to agree, which is a walk
    down both lists; [same] is [sameTypeAs] on the parameter types. *)
Definition typesCoincide {T} (same : T -> T -> bool)
  : list (FunctionParameterOf T) -> list (FunctionParameterOf T) -> bool :=
  fix loop ps qs :=
    match ps, qs with
    | p :: ps', q :: qs' =>
        if negb (same (type p) (type q)) then false else loop ps' qs'
    | _, _ => true
    end.

(** [sameTypeAs], one case per class. *)
Fixpoint sameTypeAs (this other : TypeTag) {struct this} : bool :=
  match this with
  | BooleanTTag _ => isBooleanTTag other
  | StringTTag _ => isStringTTag other
  | UnitTTag => isUnitTTag other
  | IntegerTTag _ => isIntegerTTag other
  | FunctionTTag parameters _ =>
      match other with
      | FunctionTTag oparameters _ =>
          if negb (Nat.eqb (List.length parameters) (List.length oparameters)) then false
          else
            typesCoincide sameTypeAs parameters oparameters
      | _ => false
      end
  | PredicateTTag parameters =>
      match other with
      | PredicateTTag oparameters =>
          if negb (Nat.eqb (List.length parameters) (List.length oparameters)) then false
          else
            typesCoincide sameTypeAs parameters oparameters
      | _ => false
      end
  | SigTTag _ => isSigTTag other
  | RelationTTag obj _ _ _ _ =>
      match other with
      | RelationTTag obj' _ _ _ _ => Nat.eqb obj obj'
      | _ => false
      end
  | ErrorTypeTag astNode message =>
      match other with
      | ErrorTypeTag astNode' message' =>
          bool_decide (astNode = astNode') && String.eqb message message'
      | _ => false
      end
  end.

(** [SigTTag.sameSigAs]: the declaration-identity test, kept apart from
    [sameTypeAs]. *)
Definition sameSigAs (this other : TypeTag) : bool :=
  match this, other with
  | SigTTag s, SigTTag s' => Nat.eqb s' s
  | _, _ => false
  end.

(** [RelationTTag.joinOnLeft]; [None] is the method's [null]. *)
Definition joinOnLeft (this left : TypeTag) : option TypeTag :=
  match this, left with
  | RelationTTag _ _ parentSig _ relatumType, SigTTag leftSig =>
      if Nat.eqb parentSig leftSig then Some relatumType else None
  | _, _ => None
  end.

(** Modelled from the spec: [FunctionTTag.getParameters], which the checker
    calls but the tag sources do not define: the ordered list of
    (param-node, TypeTag) pairs of the function tag, that is its [parameters]
    field.  The checker calls it on function tags only. *)
Definition getParameters (tag : TypeTag) : list FunctionParameter :=
  match tag with
  | FunctionTTag parameters _ => parameters
  | _ => []
  end.

(** Modelled from the spec: [FunctionTTag.getTypeOfParam], which the
    checker calls but the tag sources do not define: the declared type of
    this parameter within the function tag, if it has one. *)
Definition getTypeOfParam (parameters : list FunctionParameter) (p : NodeId)
  : option TypeTag :=
  type <$> List.find (fun fp => Nat.eqb (param fp) p) parameters.

Section ToString.
Variable ast : Ast.

Fixpoint toString (t : TypeTag) : string :=
  match t with
  | BooleanTTag _ => "Boolean"
  | StringTTag _ => "String"
  | UnitTTag => "Unit"
  | IntegerTTag _ => "Integer"
  | FunctionTTag parameters returnType =>
      "(" +:+ String.concat ", "
                (List.map (fun p => match p with
                   | mkFunctionParameter pn pt =>
                       showName (nodeName (nodeAt ast pn)) +:+ ": " +:+ toString pt
                   end) parameters)
          +:+ ") => " +:+ toString returnType
  | PredicateTTag parameters =>
      "Predicate[(" +:+ String.concat ", "
                (List.map (fun p => match p with
                   | mkFunctionParameter pn pt =>
                       showName (nodeName (nodeAt ast pn)) +:+ ": " +:+ toString pt
                   end) parameters)
          +:+ ")]"
  | SigTTag _ => "Sig"
  | RelationTTag _ _ _ _ _ => "Relation"
  | ErrorTypeTag _ message => "Error: " +:+ message
  end.
End ToString.

(** ** The heap and the inference monad

    [envMaps] holds the [Map] behind every [TypeEnv] object; [nextObj] is
    the identity the next allocated object gets.  A computation that yields
    no result ([None]) is one that does not return a type tag: the
    recursion is cut off by the fuel of [synth] and [check] below, or the
    JavaScript would dereference [undefined] because the tree contradicts
    the static types of its own fields. *)

Abbreviation EnvMap := (gmap nat TypeTag) (only parsing).

Record Heap := mkHeap {
  envMaps : gmap nat (gmap nat TypeTag);
  nextObj : nat
}.

Definition M (A : Type) : Type := Heap -> option (A * Heap).

Definition mret {A} (a : A) : M A := fun h => Some (a, h).
Definition mfail {A} : M A := fun _ => None.
Definition mbnd {A B} (m : M A) (k : A -> M B) : M B :=
  fun h => match m h with Some (a, h') => k a h' | None => None end.

Notation "'do' x <- m ; k" := (mbnd m (fun x => k))
  (at level 10, x name, m at level 100, k at level 200).
Notation "'do' ' p <- m ; k" := (mbnd m (fun x => match x with p => k end))
  (at level 10, p pattern, m at level 100, k at level 200).

(** [array.map(f)] with an effectful [f], left to right. *)
Fixpoint mapM {A B} (f : A -> M B) (xs : list A) : M (list B) :=
  match xs with
  | [] => mret []
  | x :: xs' => do y <- f x; do ys <- mapM f xs'; mret (y :: ys)
  end.

(** [for (const x of xs) body], threading the loop's local variables. *)
Fixpoint forOf {A S} (xs : list A) (body : S -> A -> M S) (s : S) : M S :=
  match xs with
  | [] => mret s
  | x :: xs' => do s' <- body s x; forOf xs' body s'
  end.

(** Modelled from the spec: [zip] of utils.js, which is not among the
    checker's sources: positional pairing, truncated to the shorter list. *)
Definition zip {A B} (xs : list A) (ys : list B) : list (A * B) :=
  zip_with pair xs ys.

(** ** Type environments (class [TypeEnv]) *)

Abbreviation TypeEnv := nat (only parsing).

Module TypeEnv.

Definition envMapOf (h : Heap) (env : TypeEnv) : EnvMap :=
  default ∅ (envMaps h !! env).

(** [new Map(entries)]: a later entry for a key replaces an earlier one. *)
Definition mapFromEntries (entries : list (nat * TypeTag)) : EnvMap :=
  foldl (fun m e => <[e.1 := e.2]> m) ∅ entries.

(** [new TypeEnv(initialEnvMap)] *)
Definition new (initialEnvMap : EnvMap) : M TypeEnv :=
  fun h => Some (nextObj h,
                 mkHeap (<[nextObj h := initialEnvMap]> (envMaps h))
                        (S (nextObj h))).

Definition lookup (env : TypeEnv) (node : NodeId) : M (option TypeTag) :=
  fun h => Some (envMapOf h env !! node, h).

Definition set (env : TypeEnv) (node : NodeId) (type : TypeTag) : M unit :=
  fun h => Some (tt, mkHeap (<[env := <[node := type]> (envMapOf h env)]> (envMaps h))
                            (nextObj h)).

(** Returns a new env that is extended with the input node-type pairs. *)
Definition extendWith (env : TypeEnv) (nodeTypePairs : list (NodeId * TypeTag))
  : M TypeEnv :=
  fun h =>
    let newPairMap := mapFromEntries nodeTypePairs in
    let newEnvMap :=
      mapFromEntries (map_to_list (envMapOf h env) ++ map_to_list newPairMap) in
    new newEnvMap h.

End TypeEnv.

(** ** The rules of infer.ts

    [synth] and [check] call each other without a bound the checker could
    name (the source notes a stack overflow of its own), so the rules are
    written once against the two recursive entry points and the knot is tied
    by fuel further down. *)

Definition ARITH_OPERATORS : list Op := [OpPlus; OpMinus; OpMult; OpDiv].

Definition isComparisonOp (op : Op) : bool :=
  match op with ComparisonOp => true | _ => false end.

#[global] Instance Op_eq_dec : EqDecision Op.
Proof. solve_decision. Defined.

Definition isSigDecl (nd : Node) : bool :=
  match nd with SigDecl _ _ _ => true | _ => false end.

Section Rules.
Variable ast : Ast.
Variable synth : TypeEnv -> option NodeId -> M TypeTag.
Variable check : TypeEnv -> NodeId -> TypeTag -> M TypeTag.

Definition checkChildrenHaveSameType (env : TypeEnv) (expr left right : NodeId)
    (type : TypeTag) : M TypeTag :=
  do leftType <- check env left type;
  do rightType <- check env right type;
  let typesCheck := forallb (fun typeTag => sameTypeAs typeTag type)
                            [leftType; rightType] in
  mret (if typesCheck then type
        else ErrorTypeTag (Some expr)
               ("Type error in binary expression. Expected type to be "
                +:+ toString ast type +:+ ", but got " +:+ toString ast leftType
                +:+ " and " +:+ toString ast rightType)).

(** The body of [check]: the [match(term)] cascade. *)
Definition check_rules (env : TypeEnv) (term : NodeId) (type : TypeTag)
  : M TypeTag :=
  match nodeAt ast term with
  | BinExpr _ left_ right_ => checkChildrenHaveSameType env term left_ right_ type
  | FunDecl _ _ body =>
      match type with
      | FunctionTTag _ funcRetType =>
          do newExtendedEnv <-
            TypeEnv.extendWith env
              (List.map (fun pair => match pair with
                                     | mkFunctionParameter p t => (p, t)
                                     end)
                        (getParameters type));
          check newExtendedEnv body funcRetType
      | _ => mret (ErrorTypeTag (Some term)
                     "Function declaration must be annotated with a function type")
      end
  | PredicateDecl _ _ => mret (ErrorTypeTag (Some term) "TODO")
  | IfThenElseExpr condition then_ else_ =>
      do conditionType <- synth env (Some condition);
      do iteChecksPass <-
        (if isBooleanTTag conditionType then
           do thenType <- synth env (Some then_);
           if sameTypeAs thenType type then
             do elseType <- synth env (Some else_);
             mret (sameTypeAs elseType type)
           else mret false
         else mret false);
      mret (if iteChecksPass then type
            else ErrorTypeTag (Some term)
                   "Type error in if-then-else expression (a more helpful error msg is possible with more work)")
  | _ =>
      do termType <- synth env (Some term);
      mret (if sameTypeAs termType type then type
            else ErrorTypeTag (Some term) "Type error")
  end.

(** A template literal prints a node or a reference object as
    [[object Object]]. *)
Definition inferTypeAnnot (typeAnnot : NodeId) : TypeTag :=
  match nodeAt ast typeAnnot with
  | BuiltinType annot =>
      match annot with
      | AnnotString => StringTTag None
      | AnnotInteger => IntegerTTag None
      | AnnotBoolean => BooleanTTag None
      end
  | CustomTypeDef annot =>
      match ref annot with
      | None => ErrorTypeTag (Some typeAnnot)
                  "Type annotation [object Object] not found because of an issue with linking"
      | Some customType => SigTTag customType
      end
  | _ => ErrorTypeTag (Some typeAnnot) "Type annotation [object Object] not recognized"
  end.

Definition inferBinExpr (env : TypeEnv) (expr : NodeId) (op : Op) : M TypeTag :=
  let isBoolExpr := isComparisonOp op || bool_decide (op ∈ [OpAnd; OpOr]) in
  if isBoolExpr then check env expr (BooleanTTag None)
  else if bool_decide (op ∈ ARITH_OPERATORS) then check env expr (IntegerTTag None)
  else mret (ErrorTypeTag (Some expr) "Type of binary expression cannot be inferred").

(** [predDecl.params] are [ParamTypePair] nodes; on any other node the
    read of [pair.param] has nothing to return. *)
Definition predicateTTagFromPredDecl (params : list NodeId) : M TypeTag :=
  do paramTypePairs <-
    mapM (fun pair => match nodeAt ast pair with
                      | ParamTypePair p ty =>
                          mret (mkFunctionParameter p (inferTypeAnnot ty))
                      | _ => mfail
                      end) params;
  mret (PredicateTTag paramTypePairs).

(** [retType] is the last slot; with no slot at all it would be
    [undefined], which is no type tag. *)
Definition functionTTagFromFuncDecl (env : TypeEnv) (fundecl : NodeId)
    (types params : list NodeId) : M TypeTag :=
  do paramAndRetTypes <- mapM (fun ty => synth env (Some ty)) types;
  let argTypes := removelast paramAndRetTypes in
  if negb (Nat.eqb (List.length argTypes) (List.length params)) then
    mret (ErrorTypeTag (Some fundecl)
            "Number of parameters and parameter types do not match")
  else
    match last paramAndRetTypes with
    | Some retType =>
        let argTypeTags :=
          List.map (fun paramTypeTuple =>
                      mkFunctionParameter paramTypeTuple.1 paramTypeTuple.2)
                   (zip params argTypes) in
        mret (FunctionTTag argTypeTags retType)
    | None => mfail
    end.

Definition getRefInfoForUser (value : Reference) : string :=
  "reftxt: " +:+ refText value +:+ "; linking error?: " +:+ showName (error value).

Definition synthRef (env : TypeEnv) (refNode : NodeId) (value : Reference)
  : M TypeTag :=
  match ref value with
  | Some target => synth env (Some target)
  | None =>
      mret (ErrorTypeTag (Some refNode)
              ("Can't typecheck ref because reference can't be resolved. "
               +:+ getRefInfoForUser value))
  end.

(** [term.right] is a [Ref] node and [typeOfLeft.getSig()] a [SigDecl]; the
    reads of [.value.$refText] and of [.relations] fail on anything else. *)
Definition synthJoin (env : TypeEnv) (term left right : NodeId) : M TypeTag :=
  do typeOfLeft <- synth env (Some left);
  do rightRefName <-
    match nodeAt ast right with
    | Ref value => mret (refText value)
    | _ => mfail
    end;
  match typeOfLeft with
  | SigTTag sig =>
      match nodeAt ast sig with
      | SigDecl sigName _ relations =>
          match List.find
                  (fun relNode =>
                     bool_decide (nodeName (nodeAt ast relNode) = Some rightRefName))
                  relations with
          | Some matchingRelation =>
              do relationType <- synth env (Some matchingRelation);
              if negb (isRelationTTag relationType) then
                mret (ErrorTypeTag (Some matchingRelation)
                        ("Relation should have a RelationTTag, but it instead has "
                         +:+ toString ast relationType))
              else
                let joinedType := joinOnLeft relationType typeOfLeft in
                mret (default (ErrorTypeTag (Some term) "join should have worked")
                              joinedType)
          | None =>
              mret (ErrorTypeTag (Some term)
                      ("Relatum " +:+ rightRefName +:+ " not found in " +:+ sigName))
          end
      | _ => mfail
      end
  | _ =>
      mret (ErrorTypeTag (Some left)
              ("The type of something to the left of a join / field access operator should be a Concept, and not a "
               +:+ toString ast typeOfLeft))
  end.

(** [new RelationTTag(relationNode, parentSigType, relatumType)]: a fresh
    object; the constructor calls [parentSigType.getSig()]. *)
Definition newRelationTTag (relationNode : NodeId)
    (parentSigType relatumType : TypeTag) : M TypeTag :=
  match parentSigType with
  | SigTTag parentSig =>
      fun h => Some (RelationTTag (nextObj h) relationNode parentSig
                                  parentSigType relatumType,
                     mkHeap (envMaps h) (S (nextObj h)))
  | _ => mfail
  end.

(** One round of the loop over the zipped arguments of a function
    application, on its two locals [typeTag] and [checkPassed]. *)
Definition checkArg (env : TypeEnv) (locals : TypeTag * bool)
    (pair : NodeId * TypeTag) : M (TypeTag * bool) :=
  let '(typeTag, checkPassed) := locals in
  let '(arg, expectedType) := pair in
  do checkRetType <- check env arg expectedType;
  if isErrorTypeTag checkRetType then mret (checkRetType, false)
  else mret (typeTag, checkPassed).

Definition checkArgs (env : TypeEnv) (pairs : list (NodeId * TypeTag))
    (typeTag : TypeTag) : M (TypeTag * bool) :=
  forOf pairs (checkArg env) (typeTag, true).

Definition synthNewNode (env : TypeEnv) (term : NodeId) : M TypeTag :=
  do typeTag <-
    match nodeAt ast term with
    | Ref value => synthRef env term value
    | Join left_ right_ => synthJoin env term left_ right_
    | StringLiteral => mret (StringTTag (Some term))
    | BooleanLiteral => mret (BooleanTTag (Some term))
    | NumberLiteral => mret (IntegerTTag (Some term))
    | VarDecl varType value =>
        match varType with
        | Some vt => synth env (Some vt)
        | None => synth env (Some value)
        end
    | Param _ container =>
        do typeOfParent <- synth env (Some container);
        match typeOfParent with
        | FunctionTTag parameters _ =>
            let paramType := getTypeOfParam parameters term in
            mret (default (ErrorTypeTag (Some term)
                             "param either not a param of function or lacks a type annotation")
                          paramType)
        | _ => mret (ErrorTypeTag (Some term)
                       "param either not a param of function or lacks a type annotation")
        end
    | ParamTypePair _ ty => synth env (Some ty)
    | BuiltinType _ | CustomTypeDef _ | OtherTypeAnnot => mret (inferTypeAnnot term)
    | SigDecl _ _ _ => mret (SigTTag term)
    | Relation _ container relatum =>
        if isSigDecl (nodeAt ast container) then
          do parentSigType <- synth env (Some container);
          do relatumType <- synth env (Some relatum);
          newRelationTTag term parentSigType relatumType
        else mret (ErrorTypeTag (Some term) "Relation should have a Concept as its parent")
    | BinExpr op _ _ => inferBinExpr env term op
    | FunDecl types params _ => functionTTagFromFuncDecl env term types params
    | FunctionApplication func args =>
        do inferredFuncType <- synth env (Some func);
        match inferredFuncType with
        | FunctionTTag _ returnType =>
            let inferredArgTypes :=
              List.map type (getParameters inferredFuncType) in
            do '(typeTag, checkPassed) <-
              checkArgs env (zip args inferredArgTypes)
                        (ErrorTypeTag (Some term) "Could not infer type");
            mret (if checkPassed : bool then returnType else typeTag)
        | _ =>
            mret (ErrorTypeTag (Some func)
                    "We expected a function type because of the function application, but this is not a function type")
        end
    | PredicateDecl params _ =>
        do predType <- predicateTTagFromPredDecl params;
        check env term predType
    | IfThenElseExpr _ _ _ | Other =>
        mret (ErrorTypeTag (Some term) "Type of term cannot be inferred")
    end;
  do _ <- TypeEnv.set env term typeTag;
  mret typeTag.

(** The body of [synth]. *)
Definition synth_rules (env : TypeEnv) (term : option NodeId) : M TypeTag :=
  match term with
  | None => mret (ErrorTypeTag None "Cannot infer type for a node that's falsy")
  | Some term =>
      do existing <- TypeEnv.lookup env term;
      match existing with
      | Some existing => mret existing
      | None => synthNewNode env term
      end
  end.
End Rules.

(** [synth] and [check], each call spending one unit of fuel. *)
Fixpoint synth (ast : Ast) (fuel : nat) : TypeEnv -> option NodeId -> M TypeTag :=
  match fuel with
  | 0 => fun _ _ => mfail
  | S fuel' => synth_rules ast (synth ast fuel') (check ast fuel')
  end
with check (ast : Ast) (fuel : nat) : TypeEnv -> NodeId -> TypeTag -> M TypeTag :=
  match fuel with
  | 0 => fun _ _ _ => mfail
  | S fuel' => check_rules ast (synth ast fuel') (check ast fuel')
  end.

(** [synth] and [check] as relations between heaps: the call returns this
    tag and leaves that heap. *)
Definition Synth (ast : Ast) (env : TypeEnv) (term : option NodeId)
    (h : Heap) (t : TypeTag) (h' : Heap) : Prop :=
  exists fuel, synth ast fuel env term h = Some (t, h').

Definition Check (ast : Ast) (env : TypeEnv) (term : NodeId) (type : TypeTag)
    (h : Heap) (t : TypeTag) (h' : Heap) : Prop :=
  exists fuel, check ast fuel env term type h = Some (t, h').

(** ** Sig ancestors *)

(** The [forEach] over [next.parents]: every linked parent is pushed.
    [toVisit] is kept top first, so [push] conses and [pop] takes the head. *)
Definition pushParents (parents : list Reference) (toVisit : list NodeId)
  : list NodeId :=
  foldl (fun stack parent =>
           match ref parent with
           | Some target => target :: stack
           | None => stack
           end) toVisit parents.

(** The [while] loop of [getSigAncestors].  [seen] is the insertion-ordered
    [Set]; reading [next.parents] off a node that is no [SigDecl] has nothing
    to iterate over and throws. *)
Fixpoint ancestorsLoop (ast : Ast) (fuel : nat) (seen toVisit : list NodeId)
  : option (list NodeId) :=
  match toVisit with
  | [] => Some seen
  | next :: rest =>
      match fuel with
      | 0 => None
      | S fuel' =>
          if bool_decide (next ∈ seen) then ancestorsLoop ast fuel' seen rest
          else
            match nodeAt ast next with
            | SigDecl _ parents _ =>
                ancestorsLoop ast fuel' (seen ++ [next]) (pushParents parents rest)
            | _ => None
            end
      end
  end.

(** Get Sig ancestors via DFS *)
Definition getSigAncestors (ast : Ast) (fuel : nat) (sig : NodeId)
  : option (list NodeId) :=
  ancestorsLoop ast fuel [] [sig].

(** [s.relations], for the [flatMap] of the scope provider. *)
Definition relationsOf (nd : Node) : list NodeId :=
  match nd with SigDecl _ _ relations => relations | _ => [] end.

(** [Lam4ScopeProvider.scopeSigMembers]: the relation nodes the scope of a
    join's right-hand side is built from. *)
Definition scopeSigMembers (ast : Ast) (fuel : nat) (sig : NodeId)
  : option (list NodeId) :=
  ancestors ← getSigAncestors ast fuel sig;
  Some (flat_map (fun s => relationsOf (nodeAt ast s)) ancestors).

(** ** A sample tree

<<
  CONCEPT P { r : Integer }        0: P   1: r   2: Integer
  CONCEPT S extends P { }          3: S
  x : S                            4: x   5: S (annotation)
  x `r`                            6: Join   7: x (ref)   8: r (ref)
  p : P                            10: p   11: P (annotation)
  p `r`                            12: Join   13: p (ref)   14: r (ref)
>> *)
Definition joinAst : Ast :=
  list_to_map
    [ (0, SigDecl "P" [] [1]);
      (1, Relation "r" 0 2);
      (2, BuiltinType AnnotInteger);
      (3, SigDecl "S" [mkReference (Some 0) "P" None] []);
      (4, VarDecl (Some 5) 9);
      (5, CustomTypeDef (mkReference (Some 3) "S" None));
      (6, Join 7 8);
      (7, Ref (mkReference (Some 4) "x" None));
      (8, Ref (mkReference (Some 1) "r" None));
      (9, Other);
      (10, VarDecl (Some 11) 9);
      (11, CustomTypeDef (mkReference (Some 0) "P" None));
      (12, Join 13 14);
      (13, Ref (mkReference (Some 10) "p" None));
      (14, Ref (mkReference (Some 1) "r" None)) ].

Definition emptyHeap : Heap := mkHeap ∅ 0.

(** <<
  1 + 2                            10: BinExpr   11: 1   12: 2
  if (true) then 1 else 2          13: IfThenElseExpr   14: true
  if (1) then 1 else 2             15: IfThenElseExpr
  f : Integer => Boolean           20: FunDecl   21: Integer   22: Boolean
  f(n) = true                      23: n   24: true
  f(true)                          25: FunctionApplication   26: f (ref)
  f(1)                             27: FunctionApplication   28: f (ref)
  y                                29: an unlinked reference
>> *)
Definition exprAst : Ast :=
  list_to_map
    [ (10, BinExpr OpPlus 11 12);
      (11, NumberLiteral);
      (12, NumberLiteral);
      (13, IfThenElseExpr 14 11 12);
      (14, BooleanLiteral);
      (15, IfThenElseExpr 11 11 12);
      (20, FunDecl [21; 22] [23] 24);
      (21, BuiltinType AnnotInteger);
      (22, BuiltinType AnnotBoolean);
      (23, Param "n" 20);
      (24, BooleanLiteral);
      (25, FunctionApplication 26 [14]);
      (26, Ref (mkReference (Some 20) "f" None));
      (27, FunctionApplication 28 [11]);
      (28, Ref (mkReference (Some 20) "f" None));
      (29, Ref (mkReference None "y" (Some "Could not resolve reference to y"))) ].

(** The heap right after [new TypeEnv()]: one empty environment, object 0. *)
Definition oneEnvHeap : Heap := mkHeap {[ 0 := ∅ ]} 1.

(** The tag of [f], the heap once the callee of [f(true)] is synthesized,
    and the heap once its argument is checked. *)
Definition fTag : TypeTag :=
  FunctionTTag [mkFunctionParameter 23 (IntegerTTag None)] (BooleanTTag None).

Definition calleeHeap : Heap :=
  mkHeap {[ 0 := list_to_map [ (20, fTag); (21, IntegerTTag None);
                               (22, BooleanTTag None); (26, fTag) ] ]} 1.

Definition argHeap : Heap :=
  mkHeap {[ 0 := list_to_map [ (14, BooleanTTag (Some 14)); (20, fTag);
                               (21, IntegerTTag None); (22, BooleanTTag None);
                               (26, fTag) ] ]} 1.

(** The Error the unlinked reference [y] synthesizes to, and the heap that
    holds it. *)
Definition unlinkedError : TypeTag :=
  ErrorTypeTag (Some 29)
    "Can't typecheck ref because reference can't be resolved. reftxt: y; linking error?: Could not resolve reference to y".

Definition unlinkedHeap : Heap := mkHeap {[ 0 := {[ 29 := unlinkedError ]} ]} 1.

(** The heap once the literal [1] is synthesized in environment 0. *)
Definition literalHeap : Heap :=
  mkHeap {[ 0 := {[ 11 := IntegerTTag (Some 11) ]} ]} 1.

(** <<
  CONCEPT A { }                    0: A
  CONCEPT B extends A { }          1: B
  CONCEPT C extends A { }          2: C
  CONCEPT D extends B, C, Z { }    3: D, whose parent Z is not linked
  CONCEPT X extends Y { }          4: X
  CONCEPT Y extends X { }          5: Y
>> *)
Definition diamondAst : Ast :=
  list_to_map
    [ (0, SigDecl "A" [] []);
      (1, SigDecl "B" [mkReference (Some 0) "A" None] []);
      (2, SigDecl "C" [mkReference (Some 0) "A" None] []);
      (3, SigDecl "D" [mkReference (Some 1) "B" None;
                       mkReference (Some 2) "C" None;
                       mkReference None "Z" (Some "Could not resolve reference to Z")]
                  []);
      (4, SigDecl "X" [mkReference (Some 5) "Y" None] []);
      (5, SigDecl "Y" [mkReference (Some 4) "X" None] []) ].

(** ** Vocabulary of the statements *)

(** [msg] contains [needle]. *)
Definition mentions (needle msg : string) : bool :=
  match String.index 0 needle msg with Some _ => true | None => false end.

(** The node kinds [check] has no bespoke rule for. *)
Definition fallbackKind (nd : Node) : bool :=
  match nd with
  | BinExpr _ _ _ | FunDecl _ _ _ | PredicateDecl _ _ | IfThenElseExpr _ _ _ => false
  | _ => true
  end.

(** The reading of the fallback rule under which a failed check reports both
    the synthesized and the expected type in its message. *)
Definition FallbackErrorNamesBothTypes : Prop :=
  forall (ast : Ast) env term expected h synthesized h1 result h2,
    fallbackKind (nodeAt ast term) = true ->
    Synth ast env (Some term) h synthesized h1 ->
    sameTypeAs synthesized expected = false ->
    Check ast env term expected h result h2 ->
    exists msg, result = ErrorTypeTag (Some term) msg /\
                mentions (toString ast synthesized) msg = true /\
                mentions (toString ast expected) msg = true.

(** The reading of [SigTTag.sameTypeAs] as declaration identity. *)
Definition SigSameTypeIsDeclarationIdentity : Prop :=
  forall s1 s2 : NodeId, sameTypeAs (SigTTag s1) (SigTTag s2) = true <-> s1 = s2.

(** Whenever [m1] returns, [m2] returns the same. *)
Definition mle {A} (m1 m2 : M A) : Prop :=
  forall h r, m1 h = Some r -> m2 h = Some r.

(** The linked parents of a Sig, in declaration order. *)
Definition linkedParents (nd : Node) : list NodeId :=
  match nd with
  | SigDecl _ parents _ => omap ref parents
  | _ => []
  end.

(** [parent] is a linked parent of the Sig [child]. *)
Definition parentEdge (ast : Ast) (child parent : NodeId) : Prop :=
  parent ∈ linkedParents (nodeAt ast child).

(** The tree respects the type of [SigDecl.parents]: every linked parent is
    a [SigDecl]. *)
Definition parentsAreSigs (ast : Ast) : Prop :=
  map_Forall (fun _ nd =>
                Forall (fun p => isSigDecl (nodeAt ast p) = true) (linkedParents nd))
             ast.

(** The binding [pairs] gives to node [n]: its last pair for [n]. *)
Definition lastBinding (n : NodeId) (pairs : list (NodeId * TypeTag))
  : option TypeTag :=
  snd <$> last (List.filter (fun pair => Nat.eqb pair.1 n) pairs).

(** The last Error among the results of a run of checks. *)
Definition lastError (results : list TypeTag) : option TypeTag :=
  last (List.filter isErrorTypeTag results).

(** The argument checks of an application, in order: each pair is checked in
    the heap the previous check left. *)
Inductive CheckArgs (ast : Ast) (env : TypeEnv)
  : list (NodeId * TypeTag) -> Heap -> list TypeTag -> Heap -> Prop :=
| CheckArgs_nil h : CheckArgs ast env [] h [] h
| CheckArgs_cons arg expectedType rest h r h1 rs h2 :
    Check ast env arg expectedType h r h1 ->
    CheckArgs ast env rest h1 rs h2 ->
    CheckArgs ast env ((arg, expectedType) :: rest) h (r :: rs) h2.

(** ** Vocabulary of the further statements *)

(** The [tag] field of a type tag. *)
Definition tagOf (t : TypeTag) : string :=
  match t with
  | BooleanTTag _ => "Boolean"
  | StringTTag _ => "String"
  | UnitTTag => "Unit"
  | IntegerTTag _ => "Integer"
  | FunctionTTag _ _ => "Function"
  | PredicateTTag _ => "Predicate"
  | SigTTag _ => "Sig"
  | RelationTTag _ _ _ _ _ => "Relation"
  | ErrorTypeTag _ _ => "TCError"
  end.

(** What a run on environment [e] may do to the heap: allocate, leave every
    other existing environment as it is, and keep the bindings [e] had. *)
Definition extends (e : TypeEnv) (h h' : Heap) : Prop :=
  nextObj h <= nextObj h' /\
  (forall e', e' < nextObj h -> e' <> e -> envMaps h' !! e' = envMaps h !! e') /\
  (forall n t, TypeEnv.envMapOf h e !! n = Some t ->
               TypeEnv.envMapOf h' e !! n = Some t).

(** Every returning run of [m] from a heap in which [e] exists extends it. *)
Definition keeps {A} (e : TypeEnv) (m : M A) : Prop :=
  forall h a h', e < nextObj h -> m h = Some (a, h') -> extends e h h'.

(** [r] is [expected] or, under function tags, the return type of the
    return type ... of [expected]. *)
Inductive inReturnChain (r : TypeTag) : TypeTag -> Prop :=
| chain_here : inReturnChain r r
| chain_ret ps ret : inReturnChain r ret -> inReturnChain r (FunctionTTag ps ret).

Definition isFunDecl (nd : Node) : bool :=
  match nd with FunDecl _ _ _ => true | _ => false end.

(** The node-type pairs [check] extends the environment with under a
    function declaration: one per parameter of the expected function tag. *)
Definition parameterBindings (ps : list FunctionParameter)
  : list (NodeId * TypeTag) :=
  List.map (fun pair => match pair with
                        | mkFunctionParameter p t => (p, t)
                        end) ps.

(** The type of a literal node, as an annotation would spell it. *)
Definition literalTag (nd : Node) : option TypeTag :=
  match nd with
  | StringLiteral => Some (StringTTag None)
  | BooleanLiteral => Some (BooleanTTag None)
  | NumberLiteral => Some (IntegerTTag None)
  | _ => None
  end.

(** A tree of binary expressions, with any operators, over literals of one
    type. *)
Inductive LiteralTree (ast : Ast) (T : TypeTag) : NodeId -> Prop :=
| LiteralTree_leaf n :
    literalTag (nodeAt ast n) = Some T -> LiteralTree ast T n
| LiteralTree_bin n op l r :
    nodeAt ast n = BinExpr op l r ->
    LiteralTree ast T l -> LiteralTree ast T r -> LiteralTree ast T n.

(** What the environment holds for literals of type [T] is of type [T]. *)
Definition cacheAgrees (ast : Ast) (T : TypeTag) (env : TypeEnv) (h : Heap)
  : Prop :=
  forall n t, TypeEnv.envMapOf h env !! n = Some t ->
              literalTag (nodeAt ast n) = Some T -> sameTypeAs t T = true.

(** The type [inferBinExpr] checks a binary expression against, by its
    operator. *)
Definition operatorType (op : Op) : option TypeTag :=
  if isComparisonOp op || bool_decide (op ∈ [OpAnd; OpOr]) then
    Some (BooleanTTag None)
  else if bool_decide (op ∈ ARITH_OPERATORS) then Some (IntegerTTag None)
  else None.

(** <<
  1 < 2                            0: BinExpr   1: 1   2: 2
  (1 < 2) && true                  3: BinExpr   4: true
  true + true                      5: BinExpr
  (1 + 2) * 1                      6: BinExpr   7: BinExpr
  a predicate over (a : Integer)   8: PredicateDecl   9: pair   10: a   11: Integer
>> *)
Definition opsAst : Ast :=
  list_to_map
    [ (0, BinExpr ComparisonOp 1 2);
      (1, NumberLiteral);
      (2, NumberLiteral);
      (3, BinExpr OpAnd 0 4);
      (4, BooleanLiteral);
      (5, BinExpr OpPlus 4 4);
      (6, BinExpr OpMult 7 1);
      (7, BinExpr OpPlus 1 2);
      (8, PredicateDecl [9] 4);
      (9, ParamTypePair 10 11);
      (10, Param "a" 8);
      (11, BuiltinType AnnotInteger) ].

(** The synthesis of a list of nodes, in order: each in the heap the
    previous one left. *)
Inductive SynthAll (ast : Ast) (env : TypeEnv)
  : list NodeId -> Heap -> list TypeTag -> Heap -> Prop :=
| SynthAll_nil h : SynthAll ast env [] h [] h
| SynthAll_cons n rest h t h1 ts h2 :
    Synth ast env (Some n) h t h1 ->
    SynthAll ast env rest h1 ts h2 ->
    SynthAll ast env (n :: rest) h (t :: ts) h2.

Definition isParamTypePair (nd : Node) : bool :=
  match nd with ParamTypePair _ _ => true | _ => false end.

(** * Properties *)

(** ** More fuel never changes a result *)

Lemma mle_refl {A} (m : M A) : mle m m.
Proof. by intros h r. Qed.

Lemma mle_bind {A B} (m1 m2 : M A) (k1 k2 : A -> M B) :
  mle m1 m2 -> (forall a, mle (k1 a) (k2 a)) -> mle (mbnd m1 k1) (mbnd m2 k2).
Proof.
  intros Hm Hk h r. unfold mbnd.
  destruct (m1 h) as [[a h1]|] eqn:E; [|done].
  rewrite (Hm _ _ E). apply Hk.
Qed.

Lemma mle_mapM {A B} (f1 f2 : A -> M B) (xs : list A) :
  (forall x, mle (f1 x) (f2 x)) -> mle (mapM f1 xs) (mapM f2 xs).
Proof.
  intros Hf. induction xs as [|x xs IH]; simpl; [apply mle_refl|].
  apply mle_bind; [apply Hf|]. intros y.
  apply mle_bind; [apply IH|]. intros ys. apply mle_refl.
Qed.

Lemma mle_forOf {A S} (xs : list A) (b1 b2 : S -> A -> M S) (s : S) :
  (forall s x, mle (b1 s x) (b2 s x)) -> mle (forOf xs b1 s) (forOf xs b2 s).
Proof.
  intros Hb. revert s. induction xs as [|x xs IH]; intros s; simpl;
    [apply mle_refl|].
  apply mle_bind; [apply Hb|]. intros s'. apply IH.
Qed.

Section Monotone.
Variable ast : Ast.
Variables synth1 synth2 : TypeEnv -> option NodeId -> M TypeTag.
Variables check1 check2 : TypeEnv -> NodeId -> TypeTag -> M TypeTag.
Hypothesis Hsynth : forall env t, mle (synth1 env t) (synth2 env t).
Hypothesis Hcheck : forall env t ty, mle (check1 env t ty) (check2 env t ty).

Ltac mono :=
  repeat first
    [ apply mle_refl | apply Hsynth | apply Hcheck
    | apply mle_bind; [|intros ?]
    | apply mle_mapM; intros ?
    | apply mle_forOf; intros [? ?] [? ?]; simpl
    | case_match ].

Lemma check_rules_mono env term ty :
  mle (check_rules ast synth1 check1 env term ty)
      (check_rules ast synth2 check2 env term ty).
Proof. unfold check_rules, checkChildrenHaveSameType. mono. Qed.

Lemma synth_rules_mono env term :
  mle (synth_rules ast synth1 check1 env term)
      (synth_rules ast synth2 check2 env term).
Proof.
  unfold synth_rules, synthNewNode, synthRef, synthJoin, inferBinExpr,
    functionTTagFromFuncDecl, predicateTTagFromPredDecl, checkArgs, checkArg.
  mono.
Qed.
End Monotone.

Lemma synth_check_S ast fuel :
  (forall env t, mle (synth ast fuel env t) (synth ast (S fuel) env t)) /\
  (forall env t ty, mle (check ast fuel env t ty) (check ast (S fuel) env t ty)).
Proof.
  induction fuel as [|fuel [IHs IHc]].
  - split; intros; intros h r; discriminate.
  - split; intros.
    + apply (synth_rules_mono ast _ _ _ _ IHs IHc).
    + apply (check_rules_mono ast _ _ _ _ IHs IHc).
Qed.

Lemma synth_fuel_le ast fuel fuel' env t :
  fuel <= fuel' -> mle (synth ast fuel env t) (synth ast fuel' env t).
Proof.
  induction 1 as [|fuel' _ IH]; [apply mle_refl|].
  intros h r E. by apply synth_check_S, IH.
Qed.

Lemma check_fuel_le ast fuel fuel' env t ty :
  fuel <= fuel' -> mle (check ast fuel env t ty) (check ast fuel' env t ty).
Proof.
  induction 1 as [|fuel' _ IH]; [apply mle_refl|].
  intros h r E. by apply synth_check_S, IH.
Qed.

(** Two returning runs of the same call agree. *)
Lemma Synth_deterministic ast env term h t1 h1 t2 h2 :
  Synth ast env term h t1 h1 -> Synth ast env term h t2 h2 -> t1 = t2 /\ h1 = h2.
Proof.
  intros [f1 E1] [f2 E2].
  apply (synth_fuel_le ast f1 (f1 `max` f2)) in E1; [|lia].
  apply (synth_fuel_le ast f2 (f1 `max` f2)) in E2; [|lia].
  rewrite E1 in E2. by injection E2.
Qed.

Lemma Check_deterministic ast env term ty h t1 h1 t2 h2 :
  Check ast env term ty h t1 h1 -> Check ast env term ty h t2 h2 ->
  t1 = t2 /\ h1 = h2.
Proof.
  intros [f1 E1] [f2 E2].
  apply (check_fuel_le ast f1 (f1 `max` f2)) in E1; [|lia].
  apply (check_fuel_le ast f2 (f1 `max` f2)) in E2; [|lia].
  rewrite E1 in E2. by injection E2.
Qed.

(** ** Equality of type tags *)

Lemma typesCoincide_Forall2 (ps qs : list FunctionParameter) :
  Nat.eqb (List.length ps) (List.length qs) = true ->
  typesCoincide sameTypeAs ps qs = true <->
  Forall2 (fun p q => sameTypeAs (type p) (type q) = true) ps qs.
Proof.
  revert qs. induction ps as [|p ps IH]; intros [|q qs] Hlen; simpl in *;
    try discriminate.
  - split; [constructor|done].
  - destruct (sameTypeAs (type p) (type q)) eqn:E; simpl.
    + rewrite (IH qs Hlen). split; [by constructor|by inversion 1].
    + split; [done|]. inversion 1; congruence.
Qed.

(** C10: [FunctionTTag.sameTypeAs] holds exactly when the two parameter lists
    have the same length and positionally [sameTypeAs]-equal types; the two
    return types are arbitrary, so they play no role. *)
Theorem FunctionTTag_sameTypeAs_ignores_returnType :
  forall (ps qs : list FunctionParameter) (ret1 ret2 : TypeTag),
    sameTypeAs (FunctionTTag ps ret1) (FunctionTTag qs ret2) = true <->
    Forall2 (fun p q => sameTypeAs (type p) (type q) = true) ps qs.
Proof.
  intros ps qs ret1 ret2. simpl.
  destruct (Nat.eqb (List.length ps) (List.length qs)) eqn:Hlen; simpl.
  - by apply typesCoincide_Forall2.
  - split; [done|]. intros HF. apply Forall2_length in HF.
    apply Nat.eqb_neq in Hlen. done.
Qed.

(** C9: two Error tags are [sameTypeAs] exactly when they carry the same
    offending node and the same message. *)
Theorem ErrorTypeTag_sameTypeAs :
  forall (n1 n2 : option NodeId) (m1 m2 : string),
    sameTypeAs (ErrorTypeTag n1 m1) (ErrorTypeTag n2 m2) = true <->
    n1 = n2 /\ m1 = m2.
Proof.
  intros n1 n2 m1 m2. simpl.
  rewrite andb_true_iff, bool_decide_eq_true, String.eqb_eq. done.
Qed.

(** C2, as the code has it: [sameTypeAs] on a Sig tag only asks whether the
    other tag is a Sig tag, so any two Sig tags are the same type whatever
    they declare; the declaration is compared by [sameSigAs]. *)
Theorem SigTTag_sameTypeAs_any_Sig :
  forall (s1 : NodeId) (other : TypeTag),
    (sameTypeAs (SigTTag s1) other = true <-> exists s2, other = SigTTag s2) /\
    (sameSigAs (SigTTag s1) other = true <-> other = SigTTag s1).
Proof.
  intros s1 other. split.
  - destruct other; simpl; split; try done; try (intros [? ?]; done).
    intros _. by eexists.
  - destruct other; simpl; split; try done.
    + intros E. apply Nat.eqb_eq in E. by subst.
    + intros [= ->]. apply Nat.eqb_refl.
Qed.

(** C2, refuted as stated: the Sig tags of two different declarations are
    [sameTypeAs]. *)
Lemma SigTTag_sameTypeAs_distinct_declarations :
  sameTypeAs (SigTTag 0) (SigTTag 3) = true /\ 0 <> 3 /\
  ~ SigSameTypeIsDeclarationIdentity.
Proof.
  split; [reflexivity|]. split; [lia|].
  intros H. specialize (H 0 3). destruct H as [H _].
  specialize (H eq_refl). lia.
Qed.

(** ** Memoization *)

(** [new TypeEnv()] on the empty heap is environment 0 of [oneEnvHeap]. *)
Lemma new_TypeEnv_emptyHeap : TypeEnv.new ∅ emptyHeap = Some (0, oneEnvHeap).
Proof. reflexivity. Qed.

Lemma synth_caches ast fuel env n h t h' :
  synth ast fuel env (Some n) h = Some (t, h') ->
  TypeEnv.envMapOf h' env !! n = Some t.
Proof.
  destruct fuel as [|fuel]; [done|]. simpl.
  unfold synth_rules, mbnd, TypeEnv.lookup.
  destruct (TypeEnv.envMapOf h env !! n) as [existing|] eqn:Hhit.
  - intros [= <- <-]. done.
  - unfold synthNewNode, mbnd.
    match goal with
    | |- match ?run with _ => _ end = _ -> _ =>
        destruct run as [[typeTag h1]|]; [|done]
    end.
    unfold TypeEnv.set, mret. intros [= <- <-].
    unfold TypeEnv.envMapOf. simpl. rewrite lookup_insert_eq. simpl.
    apply lookup_insert_eq.
Qed.

Lemma synth_cache_hit ast fuel env n h t :
  TypeEnv.envMapOf h env !! n = Some t ->
  synth ast (S fuel) env (Some n) h = Some (t, h).
Proof.
  intros Hhit. simpl. unfold synth_rules, mbnd, TypeEnv.lookup.
  by rewrite Hhit.
Qed.

(** C3: when [synth(e, n)] returns a tag, whether a type or an Error, the
    environment [e] holds that tag for [n] afterwards, and a second
    [synth(e, n)] returns the same tag from the lookup alone: one unit of
    fuel is enough for it, it recurses into no rule and leaves the heap as it
    is. *)
Theorem synth_memoizes :
  forall (ast : Ast) env n h t h',
    Synth ast env (Some n) h t h' ->
    TypeEnv.lookup env n h' = Some (Some t, h') /\
    (forall fuel, synth ast (S fuel) env (Some n) h' = Some (t, h')) /\
    synth_rules ast (fun _ _ => mfail) (fun _ _ _ => mfail) env (Some n) h'
      = Some (t, h').
Proof.
  intros ast env n h t h' [fuel E].
  apply synth_caches in E.
  split; [|split].
  - unfold TypeEnv.lookup. by rewrite E.
  - intros fuel'. by apply synth_cache_hit.
  - apply (synth_cache_hit ast 0). done.
Qed.

(** The unlinked reference [y] synthesizes to an Error, which is cached like
    any other tag. *)
Lemma synth_memoizes_witness :
  Synth exprAst 0 (Some 29) oneEnvHeap unlinkedError unlinkedHeap /\
  TypeEnv.lookup 0 29 unlinkedHeap = Some (Some unlinkedError, unlinkedHeap) /\
  (forall fuel,
     synth exprAst (S fuel) 0 (Some 29) unlinkedHeap
       = Some (unlinkedError, unlinkedHeap)) /\
  synth_rules exprAst (fun _ _ => mfail) (fun _ _ _ => mfail) 0 (Some 29)
    unlinkedHeap = Some (unlinkedError, unlinkedHeap).
Proof.
  assert (HS : Synth exprAst 0 (Some 29) oneEnvHeap unlinkedError unlinkedHeap)
    by (exists 2; vm_compute; reflexivity).
  split; [exact HS|].
  exact (synth_memoizes exprAst 0 29 oneEnvHeap _ _ HS).
Defined.

(** ** Joins *)

(** [synthJoin] looks the right-hand name up among the relations the left
    Sig declares itself: when none of them has that name the join is an
    Error, whatever the parents of the Sig declare. *)
Lemma synthJoin_searches_own_relations (ast : Ast) env term left_ right_ value
    h sig h1 sigName parents relations :
  nodeAt ast term = Join left_ right_ ->
  TypeEnv.lookup env term h = Some (None, h) ->
  Synth ast env (Some left_) h (SigTTag sig) h1 ->
  nodeAt ast right_ = Ref value ->
  nodeAt ast sig = SigDecl sigName parents relations ->
  List.find (fun relNode =>
               bool_decide (nodeName (nodeAt ast relNode) = Some (refText value)))
            relations = None ->
  exists h', Synth ast env (Some term) h
    (ErrorTypeTag (Some term)
       ("Relatum " +:+ refText value +:+ " not found in " +:+ sigName)) h'.
Proof.
  intros Hnode Hmiss [fuel El] Hright Hsig Hfind.
  unfold TypeEnv.lookup in Hmiss. injection Hmiss as Hmiss.
  eexists. exists (S fuel). simpl.
  unfold synth_rules, mbnd at 1, TypeEnv.lookup. rewrite Hmiss.
  unfold synthNewNode. rewrite Hnode. unfold synthJoin, mbnd.
  rewrite El, Hright. unfold mret at 1. rewrite Hsig, Hfind. reflexivity.
Qed.

(** C1, on the sample tree: [r] is declared on [P], the parent of [S], and
    [x : S].  The scope provider offers [r] for the right-hand side of
    [x `r`], but [synthJoin] searches the relations of [S] alone and returns
    an Error instead of the relatum type Integer, which it does return for
    [p `r`] with [p : P]. *)
Theorem synthJoin_misses_inherited_relation :
  getSigAncestors joinAst 3 3 = Some [3; 0] /\
  scopeSigMembers joinAst 3 3 = Some [1] /\
  (exists h', Synth joinAst 0 (Some 7) oneEnvHeap (SigTTag 3) h') /\
  (exists h', Synth joinAst 0 (Some 6) oneEnvHeap
                (ErrorTypeTag (Some 6) "Relatum r not found in S") h') /\
  (forall t h', Synth joinAst 0 (Some 6) oneEnvHeap t h' -> t <> IntegerTTag None) /\
  (exists h', Synth joinAst 0 (Some 12) oneEnvHeap (IntegerTTag None) h').
Proof.
  assert (HJ : exists h', Synth joinAst 0 (Some 6) oneEnvHeap
                 (ErrorTypeTag (Some 6) "Relatum r not found in S") h').
  { eexists. exists 6. vm_compute. reflexivity. }
  split; [reflexivity|]. split; [reflexivity|].
  split; [eexists; exists 6; vm_compute; reflexivity|].
  split; [exact HJ|].
  split; [|eexists; exists 6; vm_compute; reflexivity].
  intros t h' Ht. destruct HJ as [h1 HJ].
  destruct (Synth_deterministic _ _ _ _ _ _ _ _ Ht HJ) as [-> _]. done.
Qed.

(** ** Checking *)

(** C8, as the code has it: on a node kind without a bespoke rule, [check]
    returns the expected type when the synthesized type is [sameTypeAs] it,
    and otherwise an Error at that node whose message is the fixed text
    [Type error]. *)
Theorem check_fallback_Type_error :
  forall (ast : Ast) env term expected h synthesized h1,
    fallbackKind (nodeAt ast term) = true ->
    Synth ast env (Some term) h synthesized h1 ->
    Check ast env term expected h
      (if sameTypeAs synthesized expected then expected
       else ErrorTypeTag (Some term) "Type error") h1.
Proof.
  intros ast env term expected h synthesized h1 Hkind [fuel E].
  exists (S fuel). simpl. unfold check_rules.
  destruct (nodeAt ast term); try discriminate Hkind;
    unfold mbnd; rewrite E; reflexivity.
Qed.

(** The operand [1] of [1 + 2], checked against Boolean. *)
Lemma check_fallback_Type_error_witness :
  exists h1,
    fallbackKind (nodeAt exprAst 11) = true /\
    Synth exprAst 0 (Some 11) oneEnvHeap (IntegerTTag (Some 11)) h1 /\
    Check exprAst 0 11 (BooleanTTag None) oneEnvHeap
      (ErrorTypeTag (Some 11) "Type error") h1.
Proof.
  eexists. split; [reflexivity|].
  assert (HS : Synth exprAst 0 (Some 11) oneEnvHeap (IntegerTTag (Some 11))
                 (mkHeap {[ 0 := {[ 11 := IntegerTTag (Some 11) ]} ]} 1)).
  { exists 1. vm_compute. reflexivity. }
  split; [exact HS|].
  exact (check_fallback_Type_error exprAst 0 11 (BooleanTTag None) oneEnvHeap
           _ _ eq_refl HS).
Defined.

(** C8, refuted as stated: the fallback Error for the literal [1] against
    Boolean reads [Type error] and names neither Integer nor Boolean, and the
    Error for [1 + 2] against Boolean comes from the binary-expression rule
    and does not name Integer. *)
Lemma check_fallback_names_no_type :
  (exists h', Check exprAst 0 11 (BooleanTTag None) oneEnvHeap
                (ErrorTypeTag (Some 11) "Type error") h') /\
  mentions "Integer" "Type error" = false /\
  mentions "Boolean" "Type error" = false /\
  (exists h', Check exprAst 0 10 (BooleanTTag None) oneEnvHeap
                (ErrorTypeTag (Some 10)
                   "Type error in binary expression. Expected type to be Boolean, but got Error: Type error and Error: Type error")
                h') /\
  mentions "Integer"
    "Type error in binary expression. Expected type to be Boolean, but got Error: Type error and Error: Type error"
    = false /\
  ~ FallbackErrorNamesBothTypes.
Proof.
  assert (HS : Synth exprAst 0 (Some 11) oneEnvHeap (IntegerTTag (Some 11))
                 (mkHeap {[ 0 := {[ 11 := IntegerTTag (Some 11) ]} ]} 1)).
  { exists 1. vm_compute. reflexivity. }
  assert (HC : Check exprAst 0 11 (BooleanTTag None) oneEnvHeap
                 (ErrorTypeTag (Some 11) "Type error")
                 (mkHeap {[ 0 := {[ 11 := IntegerTTag (Some 11) ]} ]} 1)).
  { exists 2. vm_compute. reflexivity. }
  split; [eexists; exact HC|].
  split; [reflexivity|]. split; [reflexivity|].
  split; [eexists; exists 3; vm_compute; reflexivity|].
  split; [reflexivity|].
  intros Hclaim.
  destruct (Hclaim exprAst 0 11 (BooleanTTag None) oneEnvHeap _ _ _ _
              eq_refl HS eq_refl HC) as (msg & [= <-] & Hint & _).
  discriminate Hint.
Qed.

Lemma check_IfThenElseExpr_unfold ast fuel env term condition then_ else_ expected :
  nodeAt ast term = IfThenElseExpr condition then_ else_ ->
  check ast (S fuel) env term expected =
    (do conditionType <- synth ast fuel env (Some condition);
     do iteChecksPass <-
       (if isBooleanTTag conditionType then
          do thenType <- synth ast fuel env (Some then_);
          if sameTypeAs thenType expected then
            do elseType <- synth ast fuel env (Some else_);
            mret (sameTypeAs elseType expected)
          else mret false
        else mret false);
     mret (if iteChecksPass then expected
           else ErrorTypeTag (Some term)
                  "Type error in if-then-else expression (a more helpful error msg is possible with more work)")).
Proof. intros Hnode. simpl. unfold check_rules. by rewrite Hnode. Qed.

(** C6: checking [if c then a else b] against [expected] returns [expected]
    exactly when [c] synthesizes to Boolean and [a] and [b] both synthesize
    to a type that is [sameTypeAs] [expected], and an Error at the
    conditional otherwise.  The branches are synthesized left to right and
    only as far as the conjunction needs them. *)
Theorem check_IfThenElseExpr :
  forall (ast : Ast) env term condition then_ else_ expected
         h conditionType h1 thenType h2 elseType h3,
    nodeAt ast term = IfThenElseExpr condition then_ else_ ->
    Synth ast env (Some condition) h conditionType h1 ->
    (isBooleanTTag conditionType = true ->
     Synth ast env (Some then_) h1 thenType h2) ->
    (isBooleanTTag conditionType = true ->
     sameTypeAs thenType expected = true ->
     Synth ast env (Some else_) h2 elseType h3) ->
    Check ast env term expected h
      (if isBooleanTTag conditionType && sameTypeAs thenType expected
          && sameTypeAs elseType expected
       then expected
       else ErrorTypeTag (Some term)
              "Type error in if-then-else expression (a more helpful error msg is possible with more work)")
      (if isBooleanTTag conditionType
       then if sameTypeAs thenType expected then h3 else h2
       else h1).
Proof.
  intros ast env term condition then_ else_ expected
    h conditionType h1 thenType h2 elseType h3 Hnode [f1 E1] Hthen Helse.
  destruct (isBooleanTTag conditionType) eqn:Hb; simpl.
  - destruct (Hthen eq_refl) as [f2 E2].
    destruct (sameTypeAs thenType expected) eqn:Ht; simpl.
    + destruct (Helse eq_refl eq_refl) as [f3 E3].
      set (F := f1 `max` (f2 `max` f3)).
      apply (synth_fuel_le ast f1 F) in E1; [|lia].
      apply (synth_fuel_le ast f2 F) in E2; [|lia].
      apply (synth_fuel_le ast f3 F) in E3; [|lia].
      exists (S F).
      rewrite (check_IfThenElseExpr_unfold _ _ _ _ _ _ _ _ Hnode). unfold mbnd.
      rewrite E1, Hb, E2, Ht, E3.
      unfold mret. by destruct (sameTypeAs elseType expected).
    + set (F := f1 `max` f2).
      apply (synth_fuel_le ast f1 F) in E1; [|lia].
      apply (synth_fuel_le ast f2 F) in E2; [|lia].
      exists (S F).
      rewrite (check_IfThenElseExpr_unfold _ _ _ _ _ _ _ _ Hnode). unfold mbnd.
      rewrite E1, Hb, E2, Ht.
      reflexivity.
  - exists (S f1).
    rewrite (check_IfThenElseExpr_unfold _ _ _ _ _ _ _ _ Hnode). unfold mbnd.
    rewrite E1, Hb. reflexivity.
Qed.

(** [if (true) then 1 else 2] against Integer succeeds. *)
Lemma check_IfThenElseExpr_witness :
  exists h1 h2 h3,
    nodeAt exprAst 13 = IfThenElseExpr 14 11 12 /\
    Synth exprAst 0 (Some 14) oneEnvHeap (BooleanTTag (Some 14)) h1 /\
    Synth exprAst 0 (Some 11) h1 (IntegerTTag (Some 11)) h2 /\
    Synth exprAst 0 (Some 12) h2 (IntegerTTag (Some 12)) h3 /\
    Check exprAst 0 13 (IntegerTTag None) oneEnvHeap (IntegerTTag None) h3.
Proof.
  eexists _, _, _.
  assert (H1 : Synth exprAst 0 (Some 14) oneEnvHeap (BooleanTTag (Some 14))
                 (mkHeap {[ 0 := {[ 14 := BooleanTTag (Some 14) ]} ]} 1))
    by (exists 1; vm_compute; reflexivity).
  assert (H2 : Synth exprAst 0 (Some 11)
                 (mkHeap {[ 0 := {[ 14 := BooleanTTag (Some 14) ]} ]} 1)
                 (IntegerTTag (Some 11))
                 (mkHeap {[ 0 := <[ 11 := IntegerTTag (Some 11) ]>
                                   {[ 14 := BooleanTTag (Some 14) ]} ]} 1))
    by (exists 1; vm_compute; reflexivity).
  assert (H3 : Synth exprAst 0 (Some 12)
                 (mkHeap {[ 0 := <[ 11 := IntegerTTag (Some 11) ]>
                                   {[ 14 := BooleanTTag (Some 14) ]} ]} 1)
                 (IntegerTTag (Some 12))
                 (mkHeap {[ 0 := <[ 12 := IntegerTTag (Some 12) ]>
                                   (<[ 11 := IntegerTTag (Some 11) ]>
                                      {[ 14 := BooleanTTag (Some 14) ]}) ]} 1))
    by (exists 1; vm_compute; reflexivity).
  split; [reflexivity|]. split; [exact H1|]. split; [exact H2|].
  split; [exact H3|].
  exact (check_IfThenElseExpr exprAst 0 13 14 11 12 (IntegerTTag None)
           oneEnvHeap _ _ _ _ _ _ eq_refl H1 (fun _ => H2) (fun _ _ => H3)).
Defined.

(** [if (1) then 1 else 2] against Integer fails: the condition is no
    Boolean. *)
Lemma check_IfThenElseExpr_nonBoolean_condition :
  exists h', Check exprAst 0 15 (IntegerTTag None) oneEnvHeap
    (ErrorTypeTag (Some 15)
       "Type error in if-then-else expression (a more helpful error msg is possible with more work)")
    h'.
Proof. eexists. exists 2. vm_compute. reflexivity. Qed.

(** ** Function application *)

Lemma lastError_cons r rs :
  lastError (r :: rs) =
    match lastError rs with
    | Some e => Some e
    | None => if isErrorTypeTag r then Some r else None
    end.
Proof.
  unfold lastError. simpl.
  destruct (isErrorTypeTag r); [|by destruct (last _)].
  destruct (List.filter isErrorTypeTag rs) as [|e es]; [done|].
  rewrite last_cons. by destruct (last (e :: es)).
Qed.

Lemma lastError_None results :
  lastError results = None <-> Forall (fun r => isErrorTypeTag r = false) results.
Proof.
  induction results as [|r rs IH].
  - split; [constructor|done].
  - rewrite lastError_cons. destruct (lastError rs) as [e|] eqn:E.
    + split; [done|]. inversion 1; subst. destruct IH as [_ IH].
      by specialize (IH ltac:(assumption)).
    + destruct (isErrorTypeTag r) eqn:Er.
      * split; [done|]. inversion 1; congruence.
      * split; [|done]. intros _. constructor; [done|]. by apply IH.
Qed.

Lemma zip_length {A B} (xs : list A) (ys : list B) :
  List.length (zip xs ys) = List.length xs `min` List.length ys.
Proof. unfold zip. apply length_zip_with. Qed.

Lemma CheckArgs_length ast env pairs h results h' :
  CheckArgs ast env pairs h results h' -> List.length results = List.length pairs.
Proof. induction 1; simpl; congruence. Qed.

(** The loop computes the last Error of the checks, or keeps its locals. *)
Lemma forOf_checkArg ast env pairs h results h' :
  CheckArgs ast env pairs h results h' ->
  forall locals, exists fuel, forall fuel', fuel <= fuel' ->
    forOf pairs (checkArg (check ast fuel') env) locals h
      = Some (match lastError results with
              | Some e => (e, false)
              | None => locals
              end, h').
Proof.
  induction 1 as [h|arg expectedType rest h r h1 rs h2 [fa Ea] _ IH];
    intros [typeTag checkPassed].
  - exists 0. intros fuel' _. reflexivity.
  - destruct (IH (if isErrorTypeTag r then (r, false) else (typeTag, checkPassed)))
      as [fr Er].
    exists (fa `max` fr). intros fuel' Hle. simpl. unfold mbnd at 1 2.
    rewrite (check_fuel_le ast fa fuel' env arg expectedType ltac:(lia) _ _ Ea).
    rewrite lastError_cons.
    destruct (isErrorTypeTag r) eqn:Herr; unfold mret;
      rewrite (Er fuel' ltac:(lia)); by destruct (lastError rs).
Qed.

(** C5: for an application [func(args)] not yet in the cache whose callee
    synthesizes to [inferredFuncType]: if that is no Function tag the
    application is an Error; if it is, the arguments are checked in
    order against the parameter types, as many as the shorter list has, and
    the application is the callee's return type when no check returns an
    Error and the Error of the last failing check otherwise.  The parameter
    types are those of [getParameters] and the pairing is that of [zip],
    both modelled from the spec. *)
Theorem synth_FunctionApplication :
  forall (ast : Ast) env term func args h inferredFuncType h1,
    nodeAt ast term = FunctionApplication func args ->
    TypeEnv.lookup env term h = Some (None, h) ->
    Synth ast env (Some func) h inferredFuncType h1 ->
    (isFunctionTTag inferredFuncType = false ->
     exists h', Synth ast env (Some term) h
       (ErrorTypeTag (Some func)
          "We expected a function type because of the function application, but this is not a function type")
       h') /\
    (forall parameters returnType results h2,
       inferredFuncType = FunctionTTag parameters returnType ->
       CheckArgs ast env
         (zip args (List.map type (getParameters inferredFuncType)))
         h1 results h2 ->
       List.length results = List.length args `min` List.length parameters /\
       exists t h',
         Synth ast env (Some term) h t h' /\
         (Forall (fun r => isErrorTypeTag r = false) results -> t = returnType) /\
         (forall e, lastError results = Some e -> t = e)).
Proof.
  intros ast env term func args h inferredFuncType h1 Hnode Hmiss [ff Ef].
  unfold TypeEnv.lookup in Hmiss. injection Hmiss as Hmiss.
  assert (Hunfold : forall fuel,
    synth ast (S fuel) env (Some term) h =
      (do typeTag <-
         (do inferredFuncType <- synth ast fuel env (Some func);
          match inferredFuncType with
          | FunctionTTag _ returnType =>
              do '(typeTag, checkPassed) <-
                checkArgs (check ast fuel) env
                          (zip args (List.map type (getParameters inferredFuncType)))
                          (ErrorTypeTag (Some term) "Could not infer type");
              mret (if checkPassed : bool then returnType else typeTag)
          | _ =>
              mret (ErrorTypeTag (Some func)
                      "We expected a function type because of the function application, but this is not a function type")
          end);
       do _ <- TypeEnv.set env term typeTag;
       mret typeTag) h).
  { intros fuel. simpl. unfold synth_rules, mbnd at 1, TypeEnv.lookup.
    rewrite Hmiss. unfold synthNewNode. by rewrite Hnode. }
  split.
  - intros Hnf. eexists. exists (S ff). rewrite Hunfold. unfold mbnd.
    rewrite Ef. destruct inferredFuncType; try discriminate Hnf; reflexivity.
  - intros parameters returnType results h2 -> Hargs.
    split.
    { rewrite (CheckArgs_length _ _ _ _ _ _ Hargs), zip_length.
      by rewrite length_map. }
    destruct (forOf_checkArg _ _ _ _ _ _ Hargs
                (ErrorTypeTag (Some term) "Could not infer type", true))
      as [fa Ea].
    set (F := ff `max` fa).
    apply (synth_fuel_le ast ff F) in Ef; [|lia].
    specialize (Ea F ltac:(lia)).
    destruct (lastError results) as [e|] eqn:Hlast.
    + exists e. eexists. split.
      * exists (S F). rewrite Hunfold. unfold mbnd, checkArgs.
        rewrite Ef, Ea. reflexivity.
      * split; [|by intros ? [= ->]].
        intros Hall. apply lastError_None in Hall. congruence.
    + exists returnType. eexists. split.
      * exists (S F). rewrite Hunfold. unfold mbnd, checkArgs.
        rewrite Ef, Ea. reflexivity.
      * split; [done|]. intros ? [=].
Qed.

(** [f(true)] with [f : Integer => Boolean]: the check of [true] against
    Integer fails, and the application is that Error. *)
Lemma synth_FunctionApplication_witness :
  nodeAt exprAst 25 = FunctionApplication 26 [14] /\
  TypeEnv.lookup 0 25 oneEnvHeap = Some (None, oneEnvHeap) /\
  Synth exprAst 0 (Some 26) oneEnvHeap fTag calleeHeap /\
  CheckArgs exprAst 0 (zip [14] (List.map type (getParameters fTag))) calleeHeap
    [ErrorTypeTag (Some 14) "Type error"] argHeap /\
  exists h', Synth exprAst 0 (Some 25) oneEnvHeap
               (ErrorTypeTag (Some 14) "Type error") h'.
Proof.
  assert (Hf : Synth exprAst 0 (Some 26) oneEnvHeap fTag calleeHeap)
    by (exists 4; vm_compute; reflexivity).
  assert (Hargs : CheckArgs exprAst 0
                    (zip [14] (List.map type (getParameters fTag))) calleeHeap
                    [ErrorTypeTag (Some 14) "Type error"] argHeap).
  { eapply CheckArgs_cons; [|apply CheckArgs_nil].
    exists 2. vm_compute. reflexivity. }
  split; [reflexivity|]. split; [reflexivity|].
  split; [exact Hf|]. split; [exact Hargs|].
  destruct (synth_FunctionApplication exprAst 0 25 26 [14] oneEnvHeap _ _
              eq_refl eq_refl Hf) as [_ Happ].
  destruct (Happ _ _ _ _ eq_refl Hargs) as (_ & t & h' & HS & _ & Hfail).
  rewrite (Hfail _ eq_refl) in HS. by exists h'.
Defined.

(** [f(1)]: the check passes and the application is Boolean. *)
Lemma synth_FunctionApplication_passing :
  exists h', Synth exprAst 0 (Some 27) oneEnvHeap (BooleanTTag None) h'.
Proof. eexists. exists 5. vm_compute. reflexivity. Qed.

(** ** Environments *)

Lemma mapFromEntries_snoc entries e :
  TypeEnv.mapFromEntries (entries ++ [e])
  = <[e.1 := e.2]> (TypeEnv.mapFromEntries entries).
Proof. unfold TypeEnv.mapFromEntries. by rewrite foldl_snoc. Qed.

Lemma lastBinding_snoc n pairs e :
  lastBinding n (pairs ++ [e])
  = if decide (e.1 = n) then Some e.2 else lastBinding n pairs.
Proof.
  unfold lastBinding. rewrite List.filter_app. simpl.
  destruct (decide (e.1 = n)) as [->|Hne].
  - rewrite Nat.eqb_refl. by rewrite last_snoc.
  - apply Nat.eqb_neq in Hne. rewrite Hne. by rewrite app_nil_r.
Qed.

Lemma mapFromEntries_lookup entries n :
  TypeEnv.mapFromEntries entries !! n = lastBinding n entries.
Proof.
  induction entries as [|e entries IH] using rev_ind; [done|].
  rewrite mapFromEntries_snoc, lastBinding_snoc, lookup_insert.
  by destruct (decide (e.1 = n)).
Qed.

Lemma mapFromEntries_app_lookup l1 l2 n :
  TypeEnv.mapFromEntries (l1 ++ l2) !! n
  = match TypeEnv.mapFromEntries l2 !! n with
    | Some t => Some t
    | None => TypeEnv.mapFromEntries l1 !! n
    end.
Proof.
  induction l2 as [|e l2 IH] using rev_ind.
  - by rewrite app_nil_r.
  - rewrite app_assoc, !mapFromEntries_snoc, !lookup_insert.
    by destruct (decide (e.1 = n)).
Qed.

Lemma mapFromEntries_NoDup (entries : list (nat * TypeTag)) :
  NoDup entries.*1 -> TypeEnv.mapFromEntries entries = list_to_map entries.
Proof.
  induction entries as [|[k t] entries IH] using rev_ind; [done|].
  rewrite fmap_app, NoDup_app. intros (Hnd & Hfresh & _).
  rewrite mapFromEntries_snoc, (IH Hnd). simpl.
  rewrite list_to_map_snoc; [done|].
  intros Hin. apply (Hfresh k Hin). simpl. apply list_elem_of_singleton. done.
Qed.

Lemma mapFromEntries_map_to_list (m : gmap nat TypeTag) :
  TypeEnv.mapFromEntries (map_to_list m) = m.
Proof.
  rewrite mapFromEntries_NoDup by apply NoDup_fst_map_to_list.
  apply list_to_map_to_list.
Qed.

(** C7: for a live environment [env], [env.extendWith(pairs)] returns a new
    environment object in which a node bound by [pairs] has the type of its
    last pair and any other node has the binding of [env]; every lookup in
    [env] answers after the call what it answered before. *)
Theorem extendWith_overlay :
  forall env (pairs : list (NodeId * TypeTag)) h,
    env < nextObj h ->
    exists env' h',
      TypeEnv.extendWith env pairs h = Some (env', h') /\
      env' <> env /\
      forall n,
        fst <$> TypeEnv.lookup env' n h'
          = match lastBinding n pairs with
            | Some t => Some (Some t)
            | None => fst <$> TypeEnv.lookup env n h
            end /\
        fst <$> TypeEnv.lookup env n h' = fst <$> TypeEnv.lookup env n h.
Proof.
  intros env pairs h Hlive.
  eexists _, _. split; [reflexivity|]. split; [simpl; lia|].
  intros n. unfold TypeEnv.lookup, TypeEnv.envMapOf. simpl. split.
  - rewrite lookup_insert_eq. simpl.
    rewrite mapFromEntries_app_lookup, !mapFromEntries_map_to_list.
    rewrite mapFromEntries_lookup. by destruct (lastBinding n pairs).
  - rewrite lookup_insert_ne by lia. done.
Qed.

(** Over the environment that holds [1 : Integer], the pairs bind [1] twice
    and [2] once. *)
Lemma extendWith_overlay_witness :
  0 < nextObj literalHeap /\
  exists env' h',
    TypeEnv.extendWith 0 [(11, StringTTag None); (11, BooleanTTag None);
                          (12, UnitTTag)] literalHeap = Some (env', h') /\
    env' <> 0 /\
    forall n,
      fst <$> TypeEnv.lookup env' n h'
        = match lastBinding n [(11, StringTTag None); (11, BooleanTTag None);
                               (12, UnitTTag)] with
          | Some t => Some (Some t)
          | None => fst <$> TypeEnv.lookup 0 n literalHeap
          end /\
      fst <$> TypeEnv.lookup 0 n h' = fst <$> TypeEnv.lookup 0 n literalHeap.
Proof.
  split; [simpl; lia|].
  apply (extendWith_overlay 0 _ literalHeap). simpl. lia.
Defined.

(** ** Sig ancestors *)

Lemma pushParents_rev parents toVisit :
  pushParents parents toVisit = reverse (omap ref parents) ++ toVisit.
Proof.
  unfold pushParents. revert toVisit.
  induction parents as [|p parents IH]; intros toVisit; simpl; [done|].
  rewrite IH. destruct (ref p); simpl; [|done].
  by rewrite reverse_cons, <- app_assoc.
Qed.

Lemma elem_of_pushParents x parents toVisit :
  x ∈ pushParents parents toVisit <-> x ∈ omap ref parents \/ x ∈ toVisit.
Proof.
  by rewrite pushParents_rev, elem_of_app, elem_of_reverse.
Qed.

Lemma isSigDecl_dom (ast : Ast) n :
  isSigDecl (nodeAt ast n) = true -> n ∈ dom ast.
Proof.
  unfold nodeAt. intros H. apply elem_of_dom.
  destruct (ast !! n); [by eexists|discriminate].
Qed.

Lemma parentsAreSigs_edge (ast : Ast) child parent :
  parentsAreSigs ast -> parentEdge ast child parent ->
  isSigDecl (nodeAt ast parent) = true.
Proof.
  unfold parentsAreSigs, parentEdge. intros Hast Hedge.
  unfold nodeAt in Hedge.
  destruct (ast !! child) as [nd|] eqn:Hchild; simpl in Hedge.
  - specialize (Hast _ _ Hchild). rewrite Forall_forall in Hast. by apply Hast.
  - by apply elem_of_nil in Hedge.
Qed.

(** The loop returns on every stack of Sigs, whatever the shape of the
    parent graph: each round either drops a visited Sig from the stack or
    marks one of the finitely many Sigs of the tree. *)
Lemma ancestorsLoop_returns (ast : Ast) :
  parentsAreSigs ast ->
  forall bound seen toVisit,
    size (dom ast ∖ list_to_set seen) < bound ->
    NoDup seen ->
    (forall x, x ∈ toVisit -> isSigDecl (nodeAt ast x) = true) ->
    exists fuel result,
      (forall fuel', fuel <= fuel' ->
         ancestorsLoop ast fuel' seen toVisit = Some result) /\
      NoDup result /\
      (exists more, result = seen ++ more) /\
      (forall x, x ∈ result ->
         x ∈ seen \/ exists s, s ∈ toVisit /\ rtc (parentEdge ast) s x) /\
      ((forall a b, a ∈ seen -> parentEdge ast a b -> b ∈ seen \/ b ∈ toVisit) ->
       (forall x, x ∈ toVisit -> x ∈ result) /\
       (forall a b, a ∈ result -> parentEdge ast a b -> b ∈ result)).
Proof.
  intros Hast bound.
  induction bound as [|bound IHbound]; intros seen toVisit Hsize Hnd Hsigs;
    [lia|].
  induction toVisit as [|next rest IHrest].
  - exists 0, seen. split; [by intros [|?] _|]. split; [done|].
    split; [exists []; by rewrite app_nil_r|]. split; [by left|].
    intros Hclosed. split; [by intros ? ?%elem_of_nil|].
    intros a b Ha Hedge. destruct (Hclosed a b Ha Hedge) as [?|?%elem_of_nil];
      done.
  - assert (Hnext : isSigDecl (nodeAt ast next) = true)
      by (apply Hsigs; left).
    assert (Hdom : next ∈ dom ast) by by apply isSigDecl_dom.
    destruct (decide (next ∈ seen)) as [Hseen|Hnew].
    + destruct IHrest as (fuel & result & Hrun & Hnd' & Hpre & Hsound & Hcomp).
      { intros x Hx. apply Hsigs. by right. }
      exists (S fuel), result. split; [|split; [done|split; [done|split]]].
      * intros [|fuel'] Hle; [lia|]. simpl.
        rewrite bool_decide_eq_true_2 by done. apply Hrun. lia.
      * intros x Hx. destruct (Hsound x Hx) as [?|(s & Hs & Hreach)];
          [by left|]. right. exists s. split; [by right|done].
      * intros Hclosed. destruct Hcomp as [Hstack Hedges].
        { intros a b Ha Hedge.
          destruct (Hclosed a b Ha Hedge) as [?|[->|?]%elem_of_cons];
            [by left|by left|by right]. }
        split; [|done]. intros x [->|Hx]%elem_of_cons; [|by apply Hstack].
        destruct Hpre as [more ->]. apply elem_of_app. by left.
    + destruct (nodeAt ast next) as [| | | | | | | | | | |name parents relations| | | | | | |]
        eqn:Hnode; try discriminate Hnext.
      destruct (IHbound (seen ++ [next]) (pushParents parents rest))
        as (fuel & result & Hrun & Hnd' & Hpre & Hsound & Hcomp).
      { assert (dom ast ∖ list_to_set (seen ++ [next])
                  ⊂ dom ast ∖ list_to_set seen) as Hlt%subset_size; [|lia].
        rewrite list_to_set_app_L. apply strict_spec_alt. split.
        - apply difference_mono_l, union_subseteq_l.
        - intros Heq.
          assert (Hin : next ∈ dom ast ∖ list_to_set seen)
            by (apply elem_of_difference; split; [done|];
                by rewrite elem_of_list_to_set).
          rewrite <- Heq, elem_of_difference, elem_of_union in Hin.
          destruct Hin as [_ Hin]. apply Hin. right.
          apply elem_of_list_to_set. by left. }
      { apply NoDup_app. split; [done|]. split; [|apply NoDup_singleton].
        intros x Hx ->%list_elem_of_singleton. done. }
      { intros x [Hx|Hx]%elem_of_pushParents.
        - apply (parentsAreSigs_edge ast next); [done|].
          unfold parentEdge. by rewrite Hnode.
        - apply Hsigs. by right. }
      exists (S fuel), result. split; [|split; [done|split; [|split]]].
      * intros [|fuel'] Hle; [lia|]. simpl.
        rewrite bool_decide_eq_false_2 by done. rewrite Hnode.
        apply Hrun. lia.
      * destruct Hpre as [more ->]. exists ([next] ++ more).
        by rewrite app_assoc.
      * intros x Hx.
        destruct (Hsound x Hx) as [[?| ->%list_elem_of_singleton]%elem_of_app
                                  |(s & [Hs|Hs]%elem_of_pushParents & Hreach)].
        -- by left.
        -- right. exists next. split; [by left|done].
        -- right. exists next. split; [by left|].
           apply rtc_l with s; [|done]. unfold parentEdge. by rewrite Hnode.
        -- right. exists s. split; [by right|done].
      * intros Hclosed. destruct Hcomp as [Hstack Hedges].
        { intros a b [Ha| ->%list_elem_of_singleton]%elem_of_app Hedge.
          - destruct (Hclosed a b Ha Hedge) as [?|[->|?]%elem_of_cons].
            + left. apply elem_of_app. by left.
            + left. apply elem_of_app. right. by apply list_elem_of_singleton.
            + right. apply elem_of_pushParents. by right.
          - right. apply elem_of_pushParents. left.
            unfold parentEdge in Hedge. by rewrite Hnode in Hedge. }
        split; [|done]. intros x [->|Hx]%elem_of_cons.
        -- destruct Hpre as [more ->]. rewrite <- app_assoc.
           apply elem_of_app. right. by left.
        -- apply Hstack, elem_of_pushParents. by right.
Qed.


(** C4: on a tree whose parent links point to Sigs, [getSigAncestors(sig)]
    returns, whether the parent graph has diamonds or cycles; the result
    starts with [sig], lists no Sig twice and holds exactly the Sigs reached
    from [sig] through linked parents. *)
Theorem getSigAncestors_closure :
  forall (ast : Ast) sig,
    isSigDecl (nodeAt ast sig) = true ->
    parentsAreSigs ast ->
    exists fuel ancestors,
      (forall fuel', fuel <= fuel' ->
         getSigAncestors ast fuel' sig = Some ancestors) /\
      head ancestors = Some sig /\
      NoDup ancestors /\
      forall s, s ∈ ancestors <-> rtc (parentEdge ast) sig s.
Proof.
  intros ast sig Hsig Hast.
  destruct (nodeAt ast sig) as [| | | | | | | | | | |name parents relations| | | | | | |]
    eqn:Hnode; try discriminate Hsig.
  destruct (ancestorsLoop_returns ast Hast
              (S (size (dom ast ∖ list_to_set [sig]))) [sig]
              (pushParents parents []))
    as (fuel & result & Hrun & Hnd & [more ->] & Hsound & Hcomp).
  { lia. }
  { apply NoDup_singleton. }
  { intros x [Hx|Hx%elem_of_nil]%elem_of_pushParents; [|done].
    apply (parentsAreSigs_edge ast sig); [done|].
    unfold parentEdge. by rewrite Hnode. }
  exists (S fuel), ([sig] ++ more).
  split; [|split; [done|split; [done|]]].
  - intros [|fuel'] Hle; [lia|]. unfold getSigAncestors. simpl.
    rewrite Hnode. apply Hrun. lia.
  - destruct Hcomp as [_ Hedges].
    { intros a b ->%list_elem_of_singleton Hedge. right.
      apply elem_of_pushParents. left.
      unfold parentEdge in Hedge. by rewrite Hnode in Hedge. }
    intros s. split.
    + intros Hs.
      destruct (Hsound s Hs) as [->%list_elem_of_singleton
                                |(p & [Hp|Hp%elem_of_nil]%elem_of_pushParents & Hreach)];
        [done| |done].
      apply rtc_l with p; [|done]. unfold parentEdge. by rewrite Hnode.
    + revert s. apply (rtc_ind_r (fun s => s ∈ [sig] ++ more)).
      * by left.
      * intros a b _ Hab IH. by apply (Hedges a b).
Qed.

Lemma parentsAreSigs_diamondAst : parentsAreSigs diamondAst.
Proof.
  unfold parentsAreSigs, diamondAst. apply map_Forall_to_list.
  vm_compute. repeat constructor.
Qed.

(** The diamond: [D] has the parents [B] and [C], both with the parent [A],
    and a third parent that is not linked. *)
Lemma getSigAncestors_closure_witness :
  isSigDecl (nodeAt diamondAst 3) = true /\
  parentsAreSigs diamondAst /\
  exists fuel ancestors,
    (forall fuel', fuel <= fuel' ->
       getSigAncestors diamondAst fuel' 3 = Some ancestors) /\
    head ancestors = Some 3 /\
    NoDup ancestors /\
    forall s, s ∈ ancestors <-> rtc (parentEdge diamondAst) 3 s.
Proof.
  split; [reflexivity|]. split; [exact parentsAreSigs_diamondAst|].
  exact (getSigAncestors_closure diamondAst 3 eq_refl parentsAreSigs_diamondAst).
Defined.

(** On the diamond the traversal yields [D, C, A, B], with [A] once; on the
    two Sigs that extend each other it stops after both. *)
Lemma getSigAncestors_diamond_and_cycle :
  getSigAncestors diamondAst 6 3 = Some [3; 2; 0; 1] /\
  getSigAncestors diamondAst 3 4 = Some [4; 5] /\
  getSigAncestors diamondAst 3 5 = Some [5; 4].
Proof. repeat split; reflexivity. Qed.

(** * Further properties *)

(** ** [sameTypeAs] is an equivalence *)

Lemma TypeTag_nested_ind (P : TypeTag -> Prop) :
  (forall l, P (BooleanTTag l)) ->
  (forall l, P (StringTTag l)) ->
  P UnitTTag ->
  (forall l, P (IntegerTTag l)) ->
  (forall ps ret, Forall (fun p => P (type p)) ps -> P ret ->
                  P (FunctionTTag ps ret)) ->
  (forall ps, Forall (fun p => P (type p)) ps -> P (PredicateTTag ps)) ->
  (forall s, P (SigTTag s)) ->
  (forall obj rel psig pst rt, P pst -> P rt ->
                               P (RelationTTag obj rel psig pst rt)) ->
  (forall n m, P (ErrorTypeTag n m)) ->
  forall t, P t.
Proof.
  intros HB HS HU HI HF HP HSig HR HE.
  fix IH 1. intros [l|l| |l|ps ret|ps|s|obj rel psig pst rt|n m].
  - apply HB.
  - apply HS.
  - apply HU.
  - apply HI.
  - apply HF; [|apply IH].
    induction ps as [|[pn pt] ps IHps]; constructor; [apply IH|apply IHps].
  - apply HP.
    induction ps as [|[pn pt] ps IHps]; constructor; [apply IH|apply IHps].
  - apply HSig.
  - apply HR; apply IH.
  - apply HE.
Qed.

Lemma typesCoincide_refl (ps : list FunctionParameter) :
  Forall (fun p => sameTypeAs (type p) (type p) = true) ps ->
  typesCoincide sameTypeAs ps ps = true.
Proof. induction 1 as [|p ps Hp _ IH]; simpl; [done|]. by rewrite Hp. Qed.

(** X1: every type tag is [sameTypeAs] itself. *)
Theorem sameTypeAs_refl : forall t : TypeTag, sameTypeAs t t = true.
Proof.
  induction t using TypeTag_nested_ind; simpl; try done.
  - rewrite Nat.eqb_refl. simpl. by apply typesCoincide_refl.
  - rewrite Nat.eqb_refl. simpl. by apply typesCoincide_refl.
  - apply Nat.eqb_refl.
  - rewrite bool_decide_eq_true_2 by done. apply String.eqb_refl.
Qed.

Lemma typesCoincide_sym (ps qs : list FunctionParameter) :
  Forall (fun p => forall u, sameTypeAs (type p) u = sameTypeAs u (type p)) ps ->
  typesCoincide sameTypeAs ps qs = typesCoincide sameTypeAs qs ps.
Proof.
  intros HF. revert qs.
  induction HF as [|p ps Hp _ IH]; intros [|q qs]; simpl; try done.
  rewrite Hp, IH. done.
Qed.

(** X2: [sameTypeAs] does not depend on which of the two tags is the
    receiver. *)
Theorem sameTypeAs_sym :
  forall t u : TypeTag, sameTypeAs t u = sameTypeAs u t.
Proof.
  induction t using TypeTag_nested_ind; intros u; destruct u; simpl; try done.
  - rewrite (Nat.eqb_sym (List.length ps)).
    destruct (Nat.eqb _ _); simpl; [|done]. by apply typesCoincide_sym.
  - rewrite (Nat.eqb_sym (List.length ps)).
    destruct (Nat.eqb _ _); simpl; [|done]. by apply typesCoincide_sym.
  - apply Nat.eqb_sym.
  - rewrite String.eqb_sym. f_equal. apply bool_decide_ext. split; congruence.
Qed.

Lemma sameTypeAs_parameters (ps qs : list FunctionParameter) :
  (if negb (Nat.eqb (List.length ps) (List.length qs)) then false
   else typesCoincide sameTypeAs ps qs) = true <->
  Forall2 (fun p q => sameTypeAs (type p) (type q) = true) ps qs.
Proof.
  destruct (Nat.eqb (List.length ps) (List.length qs)) eqn:Hlen; simpl.
  - by apply typesCoincide_Forall2.
  - split; [done|]. intros HF%Forall2_length.
    apply Nat.eqb_neq in Hlen. done.
Qed.

Lemma Forall2_sameTypeAs_trans (ps qs rs : list FunctionParameter) :
  Forall (fun p => forall u v, sameTypeAs (type p) u = true ->
                               sameTypeAs u v = true ->
                               sameTypeAs (type p) v = true) ps ->
  Forall2 (fun p q => sameTypeAs (type p) (type q) = true) ps qs ->
  Forall2 (fun p q => sameTypeAs (type p) (type q) = true) qs rs ->
  Forall2 (fun p q => sameTypeAs (type p) (type q) = true) ps rs.
Proof.
  intros HF H1. revert rs.
  induction H1 as [|p q ps qs Hpq _ IH]; intros rs H2; inversion H2; subst;
    [constructor|].
  inversion HF; subst. constructor; [eauto|]. by apply IH.
Qed.

(** X3: [sameTypeAs] is transitive. *)
Theorem sameTypeAs_trans :
  forall t u v : TypeTag,
    sameTypeAs t u = true -> sameTypeAs u v = true -> sameTypeAs t v = true.
Proof.
  induction t using TypeTag_nested_ind; intros u v Htu Huv;
    destruct u; try discriminate Htu; destruct v; try discriminate Huv;
    try done.
  - simpl in *. apply sameTypeAs_parameters.
    apply sameTypeAs_parameters in Htu, Huv.
    by eapply Forall2_sameTypeAs_trans.
  - simpl in *. apply sameTypeAs_parameters.
    apply sameTypeAs_parameters in Htu, Huv.
    by eapply Forall2_sameTypeAs_trans.
  - simpl in *. apply Nat.eqb_eq in Htu, Huv. apply Nat.eqb_eq. congruence.
  - simpl in *. apply andb_true_iff in Htu as [Hn1 Hm1].
    apply andb_true_iff in Huv as [Hn2 Hm2].
    apply bool_decide_eq_true in Hn1, Hn2. apply String.eqb_eq in Hm1, Hm2.
    subst. rewrite bool_decide_eq_true_2 by done. apply String.eqb_refl.
Qed.

Lemma sameTypeAs_trans_witness :
  sameTypeAs (IntegerTTag (Some 11)) (IntegerTTag None) = true /\
  sameTypeAs (IntegerTTag None) (IntegerTTag (Some 12)) = true /\
  sameTypeAs (IntegerTTag (Some 11)) (IntegerTTag (Some 12)) = true.
Proof.
  split; [reflexivity|]. split; [reflexivity|].
  exact (sameTypeAs_trans (IntegerTTag (Some 11)) (IntegerTTag None)
           (IntegerTTag (Some 12)) eq_refl eq_refl).
Defined.

(** X4: [sameTypeAs] only ever relates two tags of the same variant: tags
    it accepts carry the same [tag] string. *)
Theorem sameTypeAs_same_tag :
  forall t u : TypeTag, sameTypeAs t u = true -> tagOf t = tagOf u.
Proof. intros t u H. destruct t, u; simpl in H; try discriminate H; done. Qed.

Lemma sameTypeAs_same_tag_witness :
  sameTypeAs (PredicateTTag []) (PredicateTTag []) = true /\
  tagOf (PredicateTTag []) = tagOf (PredicateTTag []).
Proof.
  split; [reflexivity|].
  exact (sameTypeAs_same_tag (PredicateTTag []) (PredicateTTag []) eq_refl).
Defined.

(** ** What a run does to the heap *)

Lemma extends_refl e h : extends e h h.
Proof. by repeat split. Qed.

Lemma extends_trans e h1 h2 h3 :
  extends e h1 h2 -> extends e h2 h3 -> extends e h1 h3.
Proof.
  intros (Hn1 & Ho1 & Hb1) (Hn2 & Ho2 & Hb2). repeat split.
  - lia.
  - intros e' Hlive Hne. rewrite Ho2 by (done || lia). by apply Ho1.
  - intros n t Hb. by apply Hb2, Hb1.
Qed.

Lemma keeps_ret {A} e (a : A) : keeps e (mret a).
Proof. intros h a' h' _ [= _ <-]. apply extends_refl. Qed.

Lemma keeps_fail {A} e : keeps e (@mfail A).
Proof. intros h a h' _ [=]. Qed.

Lemma keeps_bind {A B} e (m : M A) (k : A -> M B) :
  keeps e m -> (forall a, keeps e (k a)) -> keeps e (mbnd m k).
Proof.
  intros Hm Hk h b h' Hlive. unfold mbnd.
  destruct (m h) as [[a h1]|] eqn:E; [|done]. intros Ek.
  pose proof (Hm _ _ _ Hlive E) as Hext.
  apply (extends_trans e h h1 h'); [done|].
  apply (Hk a h1 b h'); [|done]. destruct Hext as [? _]. lia.
Qed.

Lemma keeps_mapM {A B} e (f : A -> M B) (xs : list A) :
  (forall x, keeps e (f x)) -> keeps e (mapM f xs).
Proof.
  intros Hf. induction xs as [|x xs IH]; simpl; [apply keeps_ret|].
  apply keeps_bind; [apply Hf|]. intros y.
  apply keeps_bind; [apply IH|]. intros ys. apply keeps_ret.
Qed.

Lemma keeps_forOf {A S} e (xs : list A) (body : S -> A -> M S) (s : S) :
  (forall s x, keeps e (body s x)) -> keeps e (forOf xs body s).
Proof.
  intros Hb. revert s. induction xs as [|x xs IH]; intros s; simpl;
    [apply keeps_ret|].
  apply keeps_bind; [apply Hb|]. intros s'. apply IH.
Qed.

Lemma keeps_newRelationTTag e rel pst rt : keeps e (newRelationTTag rel pst rt).
Proof.
  unfold newRelationTTag. destruct pst; try apply keeps_fail.
  intros h a h' _ [= _ <-]. split; [simpl; lia|]. split; done.
Qed.

(** An extension is a new object: checking under it leaves the receiver's
    map as it was. *)
Lemma extendWith_then e pairs (k : TypeEnv -> M TypeTag) h r h' :
  e < nextObj h ->
  (forall e', keeps e' (k e')) ->
  mbnd (TypeEnv.extendWith e pairs) k h = Some (r, h') ->
  nextObj h <= nextObj h' /\
  (forall e', e' < nextObj h -> envMaps h' !! e' = envMaps h !! e').
Proof.
  intros Hlive Hk. unfold mbnd, TypeEnv.extendWith, TypeEnv.new.
  intros Ek. apply Hk in Ek; [|simpl; lia].
  destruct Ek as (Hn & Ho & _). simpl in *. split; [lia|].
  intros e' He'. rewrite Ho by lia. by rewrite lookup_insert_ne by lia.
Qed.

Lemma keeps_extendWith_then e pairs (k : TypeEnv -> M TypeTag) :
  (forall e', keeps e' (k e')) -> keeps e (mbnd (TypeEnv.extendWith e pairs) k).
Proof.
  intros Hk h r h' Hlive Ek.
  destruct (extendWith_then _ _ _ _ _ _ Hlive Hk Ek) as [Hn Ho].
  repeat split; [done|by intros; apply Ho|].
  intros n t. unfold TypeEnv.envMapOf. by rewrite Ho.
Qed.

(** A rule body followed by the memoizing write, on a node the environment
    did not hold. *)
Lemma keeps_then_set e term (body : M TypeTag) h :
  keeps e body ->
  TypeEnv.envMapOf h e !! term = None ->
  forall r h', e < nextObj h ->
    (do typeTag <- body; do _ <- TypeEnv.set e term typeTag; mret typeTag) h
      = Some (r, h') ->
    extends e h h'.
Proof.
  intros Hbody Hmiss r h' Hlive. unfold mbnd.
  destruct (body h) as [[typeTag h1]|] eqn:E; [|done].
  unfold TypeEnv.set, mret. intros [= _ <-].
  destruct (Hbody _ _ _ Hlive E) as (Hn & Ho & Hb).
  repeat split; simpl.
  - done.
  - intros e' He' Hne. rewrite lookup_insert_ne by done. by apply Ho.
  - intros n t Hbound. unfold TypeEnv.envMapOf at 1. simpl.
    rewrite lookup_insert_eq. simpl.
    destruct (decide (n = term)) as [->|Hne]; [congruence|].
    rewrite lookup_insert_ne by done. by apply Hb.
Qed.

Section Keeps.
Variable ast : Ast.
Variable synth0 : TypeEnv -> option NodeId -> M TypeTag.
Variable check0 : TypeEnv -> NodeId -> TypeTag -> M TypeTag.
Hypothesis Hsynth : forall e t, keeps e (synth0 e t).
Hypothesis Hcheck : forall e t ty, keeps e (check0 e t ty).

Ltac frame :=
  repeat first
    [ apply keeps_ret | apply keeps_fail | apply Hsynth | apply Hcheck
    | apply keeps_newRelationTTag
    | apply keeps_extendWith_then; intros ?
    | apply keeps_bind; [|intros ?]
    | apply keeps_mapM; intros ?
    | apply keeps_forOf; intros [? ?] [? ?]; simpl
    | case_match ].

Lemma check_rules_keeps e term ty :
  keeps e (check_rules ast synth0 check0 e term ty).
Proof. unfold check_rules, checkChildrenHaveSameType. frame. Qed.

Lemma synth_rules_keeps e term :
  keeps e (synth_rules ast synth0 check0 e term).
Proof.
  destruct term as [term|]; simpl; [|apply keeps_ret].
  intros h r h' Hlive. unfold mbnd at 1, TypeEnv.lookup.
  destruct (TypeEnv.envMapOf h e !! term) as [existing|] eqn:Hhit.
  - intros [= _ <-]. apply extends_refl.
  - unfold synthNewNode. apply keeps_then_set; [|done|done].
    unfold synthRef, synthJoin, inferBinExpr, functionTTagFromFuncDecl,
      predicateTTagFromPredDecl, checkArgs, checkArg.
    frame.
Qed.
End Keeps.

Lemma synth_check_keeps ast fuel :
  (forall e t, keeps e (synth ast fuel e t)) /\
  (forall e t ty, keeps e (check ast fuel e t ty)).
Proof.
  induction fuel as [|fuel [IHs IHc]].
  - split; intros; apply keeps_fail.
  - split; intros.
    + apply (synth_rules_keeps ast _ _ IHs IHc).
    + apply (check_rules_keeps ast _ _ IHs IHc).
Qed.

(** X5: a returning [synth(env, term)] on an existing environment only
    allocates, leaves the map of every other existing environment untouched,
    and keeps every binding [env] already had: an entry, once set, answers
    the same for good. *)
Theorem synth_extends_cache :
  forall (ast : Ast) env term h t h',
    env < nextObj h ->
    Synth ast env term h t h' ->
    nextObj h <= nextObj h' /\
    (forall e', e' < nextObj h -> e' <> env ->
                envMaps h' !! e' = envMaps h !! e') /\
    (forall n cached,
       fst <$> TypeEnv.lookup env n h = Some (Some cached) ->
       fst <$> TypeEnv.lookup env n h' = Some (Some cached)).
Proof.
  intros ast env term h t h' Hlive [fuel E].
  destruct (proj1 (synth_check_keeps ast fuel) env term h t h' Hlive E)
    as (Hn & Ho & Hb).
  split; [done|]. split; [done|].
  intros n cached. unfold TypeEnv.lookup. simpl. intros [= Hc].
  by rewrite (Hb _ _ Hc).
Qed.

(** X6: the same for a returning [check(env, term, expected)]. *)
Theorem check_extends_cache :
  forall (ast : Ast) env term expected h t h',
    env < nextObj h ->
    Check ast env term expected h t h' ->
    nextObj h <= nextObj h' /\
    (forall e', e' < nextObj h -> e' <> env ->
                envMaps h' !! e' = envMaps h !! e') /\
    (forall n cached,
       fst <$> TypeEnv.lookup env n h = Some (Some cached) ->
       fst <$> TypeEnv.lookup env n h' = Some (Some cached)).
Proof.
  intros ast env term expected h t h' Hlive [fuel E].
  destruct (proj2 (synth_check_keeps ast fuel) env term expected h t h' Hlive E)
    as (Hn & Ho & Hb).
  split; [done|]. split; [done|].
  intros n cached. unfold TypeEnv.lookup. simpl. intros [= Hc].
  by rewrite (Hb _ _ Hc).
Qed.

Lemma synth_extends_cache_witness :
  0 < nextObj oneEnvHeap /\
  Synth exprAst 0 (Some 11) oneEnvHeap (IntegerTTag (Some 11)) literalHeap /\
  nextObj oneEnvHeap <= nextObj literalHeap /\
  (forall e', e' < nextObj oneEnvHeap -> e' <> 0 ->
              envMaps literalHeap !! e' = envMaps oneEnvHeap !! e') /\
  (forall n cached,
     fst <$> TypeEnv.lookup 0 n oneEnvHeap = Some (Some cached) ->
     fst <$> TypeEnv.lookup 0 n literalHeap = Some (Some cached)).
Proof.
  assert (HS : Synth exprAst 0 (Some 11) oneEnvHeap (IntegerTTag (Some 11))
                 literalHeap) by (exists 1; vm_compute; reflexivity).
  split; [simpl; lia|]. split; [exact HS|].
  apply (synth_extends_cache exprAst 0 (Some 11) oneEnvHeap
           (IntegerTTag (Some 11)) literalHeap); [simpl; lia|].
  exact HS.
Defined.

Lemma check_extends_cache_witness :
  0 < nextObj oneEnvHeap /\
  Check exprAst 0 11 (BooleanTTag None) oneEnvHeap
    (ErrorTypeTag (Some 11) "Type error") literalHeap /\
  nextObj oneEnvHeap <= nextObj literalHeap /\
  (forall e', e' < nextObj oneEnvHeap -> e' <> 0 ->
              envMaps literalHeap !! e' = envMaps oneEnvHeap !! e') /\
  (forall n cached,
     fst <$> TypeEnv.lookup 0 n oneEnvHeap = Some (Some cached) ->
     fst <$> TypeEnv.lookup 0 n literalHeap = Some (Some cached)).
Proof.
  assert (HC : Check exprAst 0 11 (BooleanTTag None) oneEnvHeap
                 (ErrorTypeTag (Some 11) "Type error") literalHeap)
    by (exists 2; vm_compute; reflexivity).
  split; [simpl; lia|]. split; [exact HC|].
  apply (check_extends_cache exprAst 0 11 (BooleanTTag None) oneEnvHeap
           (ErrorTypeTag (Some 11) "Type error") literalHeap); [simpl; lia|].
  exact HC.
Defined.

(** ** What [check] returns *)

Lemma check_result_fuel ast fuel :
  forall env term expected h r h',
    check ast fuel env term expected h = Some (r, h') ->
    (isFunDecl (nodeAt ast term) = false ->
     r = expected \/ isErrorTypeTag r = true) /\
    (isErrorTypeTag r = true \/ inReturnChain r expected).
Proof.
  induction fuel as [|fuel IH]; intros env term expected h r h'; [done|].
  simpl. unfold check_rules.
  destruct (nodeAt ast term) eqn:Hnode; simpl;
    try (unfold mbnd; destruct (synth ast fuel env (Some term) h) as [[tt h1]|];
         [|done]; unfold mret; intros [= <- _]; case_match;
         (split; [intros _|]; first [by left; constructor | by right; constructor
                                     | by left | by right])).
  - unfold checkChildrenHaveSameType, mbnd.
    destruct (check ast fuel env left expected h) as [[lt h1]|]; [|done].
    destruct (check ast fuel env right expected h1) as [[rt h2]|]; [|done].
    unfold mret. intros [= <- _]. case_match;
      (split; [intros _|]; first [by left; constructor | by right; constructor
                                  | by left | by right]).
  - destruct expected; try (intros [= <- _]; split; [done|by left]).
    unfold mbnd. destruct (TypeEnv.extendWith _ _ h) as [[e' h1]|]; [|done].
    intros E. apply IH in E as [_ [He|Hc]]; (split; [done|]).
    + by left.
    + right. by constructor.
  - intros [= <- _]. split; [intros _|]; [by right|by left].
  - unfold mbnd.
    destruct (synth ast fuel env (Some condition) h) as [[tc h1]|]; [|done].
    destruct (isBooleanTTag tc).
    + destruct (synth ast fuel env (Some then_) h1) as [[tt h2]|]; [|done].
      destruct (sameTypeAs tt expected).
      * destruct (synth ast fuel env (Some else_) h2) as [[te h3]|]; [|done].
        unfold mret. intros [= <- _]. case_match;
          (split; [intros _|]; first [by left; constructor | by right; constructor
                                      | by left | by right]).
      * unfold mret. intros [= <- _]. split; [intros _|]; [by right|by left].
    + unfold mret. intros [= <- _]. split; [intros _|]; [by right|by left].
Qed.

(** X7: [check] never invents a type.  On any node but a function
    declaration it returns the expected type itself or an Error; on a
    function declaration it returns an Error or a type found by following
    return types from the expected type. *)
Theorem check_returns_expected_or_Error :
  forall (ast : Ast) env term expected h r h',
    Check ast env term expected h r h' ->
    (isFunDecl (nodeAt ast term) = false ->
     r = expected \/ isErrorTypeTag r = true) /\
    (isErrorTypeTag r = true \/ inReturnChain r expected).
Proof. intros ast env term expected h r h' [fuel E]. by eapply check_result_fuel. Qed.

Lemma check_returns_expected_or_Error_witness :
  Check exprAst 0 13 (IntegerTTag None) oneEnvHeap (IntegerTTag None)
    (mkHeap {[ 0 := <[ 12 := IntegerTTag (Some 12) ]>
                      (<[ 11 := IntegerTTag (Some 11) ]>
                         {[ 14 := BooleanTTag (Some 14) ]}) ]} 1) /\
  (isFunDecl (nodeAt exprAst 13) = false ->
   IntegerTTag None = IntegerTTag None \/
   isErrorTypeTag (IntegerTTag None) = true) /\
  (isErrorTypeTag (IntegerTTag None) = true \/
   inReturnChain (IntegerTTag None) (IntegerTTag None)).
Proof.
  assert (HC : Check exprAst 0 13 (IntegerTTag None) oneEnvHeap (IntegerTTag None)
    (mkHeap {[ 0 := <[ 12 := IntegerTTag (Some 12) ]>
                      (<[ 11 := IntegerTTag (Some 11) ]>
                         {[ 14 := BooleanTTag (Some 14) ]}) ]} 1))
    by (exists 2; vm_compute; reflexivity).
  split; [exact HC|].
  exact (check_returns_expected_or_Error exprAst 0 13 _ _ _ _ HC).
Defined.

(** X8: checking a function declaration.  Against anything but a function
    tag it is an Error at the declaration.  Against a function tag the body
    is checked against the tag's return type in a new environment that
    extends [env] with the tag's parameters; the declaration's check returns
    what the body's check returns, and the map of [env] itself is afterwards
    exactly what it was: nothing found under the binder is cached in
    [env].  The tag's parameters are those of [getParameters], modelled from
    the spec. *)
Theorem check_FunDecl :
  forall (ast : Ast) env term types params body h,
    nodeAt ast term = FunDecl types params body ->
    env < nextObj h ->
    (forall expected,
       isFunctionTTag expected = false ->
       Check ast env term expected h
         (ErrorTypeTag (Some term)
            "Function declaration must be annotated with a function type") h) /\
    (forall ps ret env' h1 r h2,
       TypeEnv.extendWith env
         (parameterBindings (getParameters (FunctionTTag ps ret))) h
         = Some (env', h1) ->
       Check ast env' body ret h1 r h2 ->
       Check ast env term (FunctionTTag ps ret) h r h2 /\
       envMaps h2 !! env = envMaps h !! env).
Proof.
  intros ast env term types params body h Hnode Hlive. split.
  - intros expected Hnf. exists 1. simpl. unfold check_rules. rewrite Hnode.
    by destruct expected.
  - intros ps ret env' h1 r h2 Hext [fuel E].
    assert (Hrun : check ast (S fuel) env term (FunctionTTag ps ret) h
                   = Some (r, h2)).
    { change (check ast (S fuel) env term (FunctionTTag ps ret) h)
        with (check_rules ast (synth ast fuel) (check ast fuel) env term
                (FunctionTTag ps ret) h).
      unfold check_rules. rewrite Hnode. unfold mbnd.
      fold (parameterBindings (getParameters (FunctionTTag ps ret))).
      by rewrite Hext. }
    split; [by exists (S fuel)|].
    simpl in Hrun. unfold check_rules in Hrun. rewrite Hnode in Hrun.
    apply extendWith_then in Hrun; [|done|].
    + destruct Hrun as [_ Ho]. by apply Ho.
    + intros e'. apply synth_check_keeps.
Qed.

(** [f] against its own type [Integer => Boolean]: the body [true] is checked
    against Boolean in environment 1, and the check of the declaration is
    Boolean. *)
Lemma check_FunDecl_witness :
  exists h1 h2,
    nodeAt exprAst 20 = FunDecl [21; 22] [23] 24 /\
    0 < nextObj oneEnvHeap /\
    TypeEnv.extendWith 0 (parameterBindings (getParameters fTag))
      oneEnvHeap = Some (1, h1) /\
    Check exprAst 1 24 (BooleanTTag None) h1 (BooleanTTag None) h2 /\
    Check exprAst 0 20 fTag oneEnvHeap (BooleanTTag None) h2 /\
    envMaps h2 !! 0 = envMaps oneEnvHeap !! 0.
Proof.
  eexists _, _.
  split; [reflexivity|]. split; [simpl; lia|].
  assert (He : TypeEnv.extendWith 0
                 (parameterBindings (getParameters fTag))
                 oneEnvHeap
               = Some (1, mkHeap (<[ 1 := {[ 23 := IntegerTTag None ]} ]>
                                    {[ 0 := ∅ ]}) 2))
    by (vm_compute; reflexivity).
  assert (Hb : Check exprAst 1 24 (BooleanTTag None)
                 (mkHeap (<[ 1 := {[ 23 := IntegerTTag None ]} ]> {[ 0 := ∅ ]}) 2)
                 (BooleanTTag None)
                 (mkHeap (<[ 1 := <[ 24 := BooleanTTag (Some 24) ]>
                                     {[ 23 := IntegerTTag None ]} ]>
                            {[ 0 := ∅ ]}) 2))
    by (exists 2; vm_compute; reflexivity).
  split; [exact He|]. split; [exact Hb|].
  exact (proj2 (check_FunDecl exprAst 0 20 [21; 22] [23] 24 oneEnvHeap eq_refl
                  ltac:(simpl; lia)) _ _ _ _ _ _ He Hb).
Defined.

(** ** The messages of the binary-expression rule *)

Lemma substring_append_prefix (s b : string) :
  String.substring 0 (String.length s) (s +:+ b) = s.
Proof.
  induction s as [|c s IH]; simpl; [by destruct b|]. by rewrite IH.
Qed.

Lemma substring_append_skip (a s : string) (m k : nat) :
  String.substring (String.length a + m) k (a +:+ s) = String.substring m k s.
Proof. induction a as [|c a IH]; simpl; [done|]. apply IH. Qed.

Lemma mentions_spec (s msg : string) (m : nat) :
  s <> "" -> String.substring m (String.length s) msg = s -> mentions s msg = true.
Proof.
  intros Hne Hsub. unfold mentions.
  destruct (String.index 0 s msg) eqn:E; [done|].
  exfalso. apply (String.index_correct3 0 m s msg E Hne); [lia|done].
Qed.

Lemma mentions_here (s b : string) : s <> "" -> mentions s (s +:+ b) = true.
Proof. intros Hne. apply (mentions_spec s _ 0 Hne), substring_append_prefix. Qed.

Lemma mentions_later (s a b : string) :
  s <> "" -> mentions s b = true -> mentions s (a +:+ b) = true.
Proof.
  intros Hne. unfold mentions at 1.
  destruct (String.index 0 s b) as [m|] eqn:E; [|done]. intros _.
  apply (mentions_spec s _ (String.length a + m) Hne).
  rewrite substring_append_skip. by apply String.index_correct1 in E.
Qed.

Lemma mentions_end (s : string) : s <> "" -> mentions s s = true.
Proof.
  intros Hne. apply (mentions_spec s _ 0 Hne).
  induction s as [|c s IH]; simpl; [done|].
  destruct s; [done|]. rewrite IH; done.
Qed.

Lemma toString_nonempty ast t : toString ast t <> "".
Proof. destruct t; simpl; done. Qed.

(** X9: checking a binary expression against [expected] checks the left and
    then the right operand against [expected], whatever the operator; it
    returns [expected] when both results are [sameTypeAs] it, and otherwise
    an Error at the expression whose message names the expected type and the
    two results. *)
Theorem check_BinExpr :
  forall (ast : Ast) env term op l r expected h leftType h1 rightType h2,
    nodeAt ast term = BinExpr op l r ->
    Check ast env l expected h leftType h1 ->
    Check ast env r expected h1 rightType h2 ->
    exists res,
      Check ast env term expected h res h2 /\
      (sameTypeAs leftType expected && sameTypeAs rightType expected = true ->
       res = expected) /\
      (sameTypeAs leftType expected && sameTypeAs rightType expected = false ->
       exists msg,
         res = ErrorTypeTag (Some term) msg /\
         mentions (toString ast expected) msg = true /\
         mentions (toString ast leftType) msg = true /\
         mentions (toString ast rightType) msg = true).
Proof.
  intros ast env term op l r expected h leftType h1 rightType h2 Hnode
    [f1 E1] [f2 E2].
  set (F := f1 `max` f2).
  apply (check_fuel_le ast f1 F) in E1; [|lia].
  apply (check_fuel_le ast f2 F) in E2; [|lia].
  eexists. split.
  - exists (S F). simpl. unfold check_rules. rewrite Hnode.
    unfold checkChildrenHaveSameType, mbnd. rewrite E1, E2. reflexivity.
  - simpl. rewrite andb_true_r.
    destruct (sameTypeAs leftType expected && sameTypeAs rightType expected).
    + split; [done|discriminate].
    + split; [discriminate|]. intros _. eexists. split; [reflexivity|].
      pose proof (toString_nonempty ast expected) as He.
      pose proof (toString_nonempty ast leftType) as Hl.
      pose proof (toString_nonempty ast rightType) as Hr.
      split; [|split].
      * by apply mentions_later, mentions_here.
      * by do 3 (apply mentions_later; [done|]); apply mentions_here.
      * by do 5 (apply mentions_later; [done|]); apply mentions_end.
Qed.

(** [1 + 2] against Boolean: both operands fail, and the message names
    Boolean and the two operand Errors. *)
Lemma check_BinExpr_witness :
  exists h1 h2,
    nodeAt exprAst 10 = BinExpr OpPlus 11 12 /\
    Check exprAst 0 11 (BooleanTTag None) oneEnvHeap
      (ErrorTypeTag (Some 11) "Type error") h1 /\
    Check exprAst 0 12 (BooleanTTag None) h1
      (ErrorTypeTag (Some 12) "Type error") h2 /\
    exists res,
      Check exprAst 0 10 (BooleanTTag None) oneEnvHeap res h2 /\
      exists msg,
        res = ErrorTypeTag (Some 10) msg /\
        mentions "Boolean" msg = true /\
        mentions "Error: Type error" msg = true.
Proof.
  eexists _, _. split; [reflexivity|].
  assert (H1 : Check exprAst 0 11 (BooleanTTag None) oneEnvHeap
                 (ErrorTypeTag (Some 11) "Type error") literalHeap)
    by (exists 2; vm_compute; reflexivity).
  assert (H2 : Check exprAst 0 12 (BooleanTTag None) literalHeap
                 (ErrorTypeTag (Some 12) "Type error")
                 (mkHeap {[ 0 := <[ 12 := IntegerTTag (Some 12) ]>
                                   {[ 11 := IntegerTTag (Some 11) ]} ]} 1))
    by (exists 2; vm_compute; reflexivity).
  split; [exact H1|]. split; [exact H2|].
  destruct (check_BinExpr exprAst 0 10 OpPlus 11 12 (BooleanTTag None)
              oneEnvHeap _ _ _ _ eq_refl H1 H2) as (res & HC & _ & Herr).
  exists res. split; [exact HC|].
  destruct (Herr eq_refl) as (msg & -> & Hexp & Hleft & _).
  exists msg. done.
Defined.

(** ** Expressions over literals *)

Lemma check_fallback_run ast fuel env term expected h synthesized h1 :
  fallbackKind (nodeAt ast term) = true ->
  synth ast fuel env (Some term) h = Some (synthesized, h1) ->
  check ast (S fuel) env term expected h
    = Some (if sameTypeAs synthesized expected then expected
            else ErrorTypeTag (Some term) "Type error", h1).
Proof.
  intros Hkind E. simpl. unfold check_rules.
  destruct (nodeAt ast term); try discriminate Hkind;
    unfold mbnd; rewrite E; reflexivity.
Qed.

Lemma check_BinExpr_run ast fuel env term op l r expected h lt h1 rt h2 :
  nodeAt ast term = BinExpr op l r ->
  check ast fuel env l expected h = Some (lt, h1) ->
  check ast fuel env r expected h1 = Some (rt, h2) ->
  check ast (S fuel) env term expected h
    = Some (if sameTypeAs lt expected && sameTypeAs rt expected then expected
            else ErrorTypeTag (Some term)
                   ("Type error in binary expression. Expected type to be "
                    +:+ toString ast expected +:+ ", but got "
                    +:+ toString ast lt +:+ " and " +:+ toString ast rt), h2).
Proof.
  intros Hnode E1 E2. simpl. unfold check_rules. rewrite Hnode.
  unfold checkChildrenHaveSameType, mbnd. rewrite E1, E2. simpl.
  by rewrite andb_true_r.
Qed.

Lemma literalTag_sameTypeAs nd T t T0 :
  literalTag nd = Some T -> sameTypeAs t T = true ->
  sameTypeAs t T0 = sameTypeAs T T0.
Proof.
  destruct nd; try discriminate; intros [= <-]; destruct t; try discriminate;
    done.
Qed.

Lemma literal_synthNewNode ast env n T h :
  literalTag (nodeAt ast n) = Some T ->
  TypeEnv.envMapOf h env !! n = None ->
  exists t, sameTypeAs t T = true /\
    synth ast 1 env (Some n) h
      = Some (t, mkHeap (<[env := <[n := t]> (TypeEnv.envMapOf h env)]> (envMaps h))
                        (nextObj h)).
Proof.
  intros Hlit Hmiss. simpl. unfold synth_rules, mbnd at 1, TypeEnv.lookup.
  rewrite Hmiss. unfold synthNewNode.
  destruct (nodeAt ast n); try discriminate Hlit; injection Hlit as <-;
    eexists; (split; [|reflexivity]); reflexivity.
Qed.

Lemma literalTag_fallbackKind nd T : literalTag nd = Some T -> fallbackKind nd = true.
Proof. by destruct nd. Qed.

Lemma Error_sameTypeAs_Error r T :
  isErrorTypeTag r = true -> sameTypeAs r T = true -> isErrorTypeTag T = true.
Proof. destruct r; try discriminate. by destruct T. Qed.

Lemma LiteralTree_tag ast T n :
  LiteralTree ast T n -> exists nd, literalTag nd = Some T.
Proof. induction 1; [by eexists|done]. Qed.

(** X10: a tree of binary expressions over literals of type [T'], checked
    against [T] in an environment whose cached literals agree with [T'],
    always returns: [T] itself when [T'] is [sameTypeAs] [T], an Error
    otherwise.  The operators of the tree play no role, and the environment
    still agrees afterwards. *)
Theorem check_LiteralTree :
  forall (ast : Ast) T' n,
    LiteralTree ast T' n ->
    forall env T h,
      cacheAgrees ast T' env h ->
      exists r h',
        Check ast env n T h r h' /\
        cacheAgrees ast T' env h' /\
        (sameTypeAs T' T = true -> r = T) /\
        (sameTypeAs T' T = false -> isErrorTypeTag r = true).
Proof.
  intros ast T' n Htree.
  destruct (LiteralTree_tag _ _ _ Htree) as [nd Hnd].
  induction Htree as [n Hlit|n op l r Hnode _ IHl _ IHr]; intros env T h Hcache.
  - pose proof (literalTag_fallbackKind _ _ Hlit) as Hkind.
    destruct (TypeEnv.envMapOf h env !! n) as [t|] eqn:Hhit.
    + exists (if sameTypeAs t T then T else ErrorTypeTag (Some n) "Type error"), h.
      split; [|split; [done|]].
      * exists 2. apply check_fallback_run; [done|].
        simpl. unfold synth_rules, mbnd, TypeEnv.lookup. by rewrite Hhit.
      * rewrite (literalTag_sameTypeAs _ _ _ T Hlit (Hcache _ _ Hhit Hlit)).
        by destruct (sameTypeAs T' T).
    + destruct (literal_synthNewNode ast env n T' h Hlit Hhit) as (t & Ht & Hrun).
      eexists (if sameTypeAs t T then T else ErrorTypeTag (Some n) "Type error"), _.
      split; [|split].
      * exists 2. by apply check_fallback_run.
      * intros m t' Hbound Hm. unfold TypeEnv.envMapOf in Hbound at 1.
        simpl in Hbound. rewrite lookup_insert_eq in Hbound. simpl in Hbound.
        destruct (decide (m = n)) as [->|Hne].
        -- rewrite lookup_insert_eq in Hbound. by injection Hbound as <-.
        -- rewrite lookup_insert_ne in Hbound by done. by eapply Hcache.
      * rewrite (literalTag_sameTypeAs _ _ _ T Hlit Ht).
        by destruct (sameTypeAs T' T).
  - destruct (IHl env T h Hcache) as (rl & h1 & [f1 E1] & Hc1 & Hokl & Herrl).
    destruct (IHr env T h1 Hc1) as (rr & h2 & [f2 E2] & Hc2 & Hokr & Herrr).
    set (F := f1 `max` f2).
    apply (check_fuel_le ast f1 F) in E1; [|lia].
    apply (check_fuel_le ast f2 F) in E2; [|lia].
    eexists _, h2. split; [|split; [done|]].
    + exists (S F). by eapply check_BinExpr_run.
    + destruct (sameTypeAs T' T) eqn:Hsame.
      * rewrite (Hokl eq_refl), (Hokr eq_refl).
        assert (sameTypeAs T T = true) as ->; [|done].
        clear -Hnd Hsame. destruct nd; try discriminate Hnd;
          injection Hnd as <-; by destruct T.
      * split; [done|]. intros _.
        destruct (sameTypeAs rl T) eqn:Hrl; simpl; [|done].
        destruct (sameTypeAs rr T); [|done].
        by apply (Error_sameTypeAs_Error rl); [apply Herrl|].
Qed.

Lemma check_LiteralTree_witness :
  LiteralTree opsAst (IntegerTTag None) 6 /\
  cacheAgrees opsAst (IntegerTTag None) 0 oneEnvHeap /\
  exists r h',
    Check opsAst 0 6 (IntegerTTag None) oneEnvHeap r h' /\
    cacheAgrees opsAst (IntegerTTag None) 0 h' /\
    (sameTypeAs (IntegerTTag None) (IntegerTTag None) = true ->
     r = IntegerTTag None) /\
    (sameTypeAs (IntegerTTag None) (IntegerTTag None) = false ->
     isErrorTypeTag r = true).
Proof.
  assert (Htree : LiteralTree opsAst (IntegerTTag None) 6).
  { eapply LiteralTree_bin; [reflexivity| |by apply LiteralTree_leaf].
    eapply LiteralTree_bin; [reflexivity| |]; by apply LiteralTree_leaf. }
  assert (Hcache : cacheAgrees opsAst (IntegerTTag None) 0 oneEnvHeap).
  { intros n t Hbound. vm_compute in Hbound. discriminate Hbound. }
  split; [exact Htree|]. split; [exact Hcache|].
  exact (check_LiteralTree opsAst (IntegerTTag None) 6 Htree 0 (IntegerTTag None)
           oneEnvHeap Hcache).
Defined.

(** X11: synthesizing a binary expression the environment does not hold,
    whose operands are trees over literals of type [T']: the operator alone
    picks the type [T] the expression is checked against (Boolean for a
    comparison, [OpAnd] or [OpOr], Integer for the arithmetic operators), and
    the expression has type [T] when [T'] is [sameTypeAs] [T] and is an Error
    otherwise.  So arithmetic on numbers is Integer, and a comparison of
    numbers, whose operands are checked against Boolean, is an Error. *)
Theorem synth_BinExpr_LiteralTree :
  forall (ast : Ast) env n op l r T T' h,
    nodeAt ast n = BinExpr op l r ->
    operatorType op = Some T ->
    LiteralTree ast T' l ->
    LiteralTree ast T' r ->
    TypeEnv.lookup env n h = Some (None, h) ->
    cacheAgrees ast T' env h ->
    exists res h',
      Synth ast env (Some n) h res h' /\
      (sameTypeAs T' T = true -> res = T) /\
      (sameTypeAs T' T = false -> isErrorTypeTag res = true).
Proof.
  intros ast env n op l r T T' h Hnode Hop Hl Hr Hmiss Hcache.
  unfold TypeEnv.lookup in Hmiss. injection Hmiss as Hmiss.
  destruct (check_LiteralTree ast T' n (LiteralTree_bin _ _ _ _ _ _ Hnode Hl Hr)
              env T h Hcache) as (res & h1 & [fuel E] & _ & Hok & Herr).
  exists res. eexists. split; [|done].
  exists (S fuel). simpl. unfold synth_rules, mbnd at 1, TypeEnv.lookup.
  rewrite Hmiss. unfold synthNewNode. rewrite Hnode.
  unfold inferBinExpr. unfold operatorType in Hop.
  destruct (isComparisonOp op || bool_decide (op ∈ [OpAnd; OpOr])).
  - injection Hop as <-. unfold mbnd. rewrite E. reflexivity.
  - destruct (bool_decide (op ∈ ARITH_OPERATORS)); [|discriminate Hop].
    injection Hop as <-. unfold mbnd. rewrite E. reflexivity.
Qed.

(** [1 < 2]: the operands are numbers, the comparison wants Booleans. *)
Lemma synth_BinExpr_LiteralTree_witness :
  nodeAt opsAst 0 = BinExpr ComparisonOp 1 2 /\
  operatorType ComparisonOp = Some (BooleanTTag None) /\
  LiteralTree opsAst (IntegerTTag None) 1 /\
  LiteralTree opsAst (IntegerTTag None) 2 /\
  TypeEnv.lookup 0 0 oneEnvHeap = Some (None, oneEnvHeap) /\
  cacheAgrees opsAst (IntegerTTag None) 0 oneEnvHeap /\
  exists res h',
    Synth opsAst 0 (Some 0) oneEnvHeap res h' /\ isErrorTypeTag res = true.
Proof.
  assert (H1 : LiteralTree opsAst (IntegerTTag None) 1) by by apply LiteralTree_leaf.
  assert (H2 : LiteralTree opsAst (IntegerTTag None) 2) by by apply LiteralTree_leaf.
  assert (Hcache : cacheAgrees opsAst (IntegerTTag None) 0 oneEnvHeap).
  { intros n t Hbound. vm_compute in Hbound. discriminate Hbound. }
  split; [reflexivity|]. split; [reflexivity|]. split; [exact H1|].
  split; [exact H2|]. split; [reflexivity|]. split; [exact Hcache|].
  destruct (synth_BinExpr_LiteralTree opsAst 0 0 ComparisonOp 1 2
              (BooleanTTag None) (IntegerTTag None) oneEnvHeap
              eq_refl eq_refl H1 H2 eq_refl Hcache) as (res & h' & HS & _ & Herr).
  exists res, h'. split; [exact HS|]. exact (Herr eq_refl).
Defined.

(** [(1 + 2) * 1] is Integer; [true + true] is an Error. *)
Lemma synth_arithmetic_examples :
  (exists h', Synth opsAst 0 (Some 6) oneEnvHeap (IntegerTTag None) h') /\
  (exists msg h', Synth opsAst 0 (Some 5) oneEnvHeap
                    (ErrorTypeTag (Some 5) msg) h').
Proof.
  split.
  - eexists. exists 5. vm_compute. reflexivity.
  - eexists _, _. exists 4. vm_compute. reflexivity.
Qed.

(** ** The member scope of a Sig *)

Lemma getSigAncestors_reachable (ast : Ast) sig :
  isSigDecl (nodeAt ast sig) = true ->
  parentsAreSigs ast ->
  exists fuel more,
    (forall fuel', fuel <= fuel' ->
       getSigAncestors ast fuel' sig = Some (sig :: more)) /\
    forall s, s ∈ sig :: more <-> rtc (parentEdge ast) sig s.
Proof.
  intros Hsig Hast.
  destruct (nodeAt ast sig) as [| | | | | | | | | | |name parents relations| | | | | | |]
    eqn:Hnode; try discriminate Hsig.
  destruct (ancestorsLoop_returns ast Hast
              (S (size (dom ast ∖ list_to_set [sig]))) [sig]
              (pushParents parents []))
    as (fuel & result & Hrun & _ & [more ->] & Hsound & Hcomp).
  { lia. }
  { apply NoDup_singleton. }
  { intros x [Hx|Hx%elem_of_nil]%elem_of_pushParents; [|done].
    apply (parentsAreSigs_edge ast sig); [done|].
    unfold parentEdge. by rewrite Hnode. }
  exists (S fuel), more. split.
  - intros [|fuel'] Hle; [lia|]. unfold getSigAncestors. simpl.
    rewrite Hnode. apply Hrun. lia.
  - destruct Hcomp as [_ Hedges].
    { intros a b ->%list_elem_of_singleton Hedge. right.
      apply elem_of_pushParents. left.
      unfold parentEdge in Hedge. by rewrite Hnode in Hedge. }
    intros s. split.
    + intros Hs.
      destruct (Hsound s Hs) as [->%list_elem_of_singleton
                                |(p & [Hp|Hp%elem_of_nil]%elem_of_pushParents & Hreach)];
        [done| |done].
      apply rtc_l with p; [|done]. unfold parentEdge. by rewrite Hnode.
    + revert s. apply (rtc_ind_r (fun s => s ∈ [sig] ++ more)).
      * by left.
      * intros a b _ Hab IH. by apply (Hedges a b).
Qed.

(** X12: on a tree whose parent links point to Sigs, the scope provider's
    [scopeSigMembers(sig)] returns, and the relations it offers are exactly
    those declared on [sig] or on a Sig reached from it through linked
    parents, the relations of [sig] itself first. *)
Theorem scopeSigMembers_inherited :
  forall (ast : Ast) sig,
    isSigDecl (nodeAt ast sig) = true ->
    parentsAreSigs ast ->
    exists fuel members,
      (forall fuel', fuel <= fuel' ->
         scopeSigMembers ast fuel' sig = Some members) /\
      (forall rel, rel ∈ members <->
         exists s, rtc (parentEdge ast) sig s /\
                   rel ∈ relationsOf (nodeAt ast s)) /\
      (exists inherited, members = relationsOf (nodeAt ast sig) ++ inherited).
Proof.
  intros ast sig Hsig Hast.
  destruct (getSigAncestors_reachable ast sig Hsig Hast)
    as (fuel & more & Hrun & Hreach).
  exists fuel. eexists. split; [|split].
  - intros fuel' Hle. unfold scopeSigMembers. by rewrite (Hrun fuel' Hle).
  - intros rel. rewrite list_elem_of_In, in_flat_map. split.
    + intros (s & Hs%list_elem_of_In & Hrel%list_elem_of_In).
      exists s. split; [by apply Hreach|done].
    + intros (s & Hs & Hrel). exists s.
      split; apply list_elem_of_In; [by apply Hreach|done].
  - by eexists.
Qed.

(** From [S], whose parent [P] declares [r], the scope holds [r]. *)
Lemma scopeSigMembers_inherited_witness :
  isSigDecl (nodeAt joinAst 3) = true /\
  parentsAreSigs joinAst /\
  exists fuel members,
    (forall fuel', fuel <= fuel' ->
       scopeSigMembers joinAst fuel' 3 = Some members) /\
    (forall rel, rel ∈ members <->
       exists s, rtc (parentEdge joinAst) 3 s /\
                 rel ∈ relationsOf (nodeAt joinAst s)) /\
    (exists inherited, members = relationsOf (nodeAt joinAst 3) ++ inherited).
Proof.
  assert (Hast : parentsAreSigs joinAst).
  { unfold parentsAreSigs, joinAst. apply map_Forall_to_list.
    vm_compute. repeat constructor. }
  split; [reflexivity|]. split; [exact Hast|].
  exact (scopeSigMembers_inherited joinAst 3 eq_refl Hast).
Defined.

(** ** Relations and joins *)

Lemma synth_miss_unfold ast fuel env term h :
  TypeEnv.envMapOf h env !! term = None ->
  synth ast (S fuel) env (Some term) h
    = synthNewNode ast (synth ast fuel) (check ast fuel) env term h.
Proof.
  intros Hmiss. simpl. unfold synth_rules, mbnd at 1, TypeEnv.lookup.
  by rewrite Hmiss.
Qed.

Lemma synth_Relation_run ast fuel env rel name container relatum h c h1 T h2 :
  nodeAt ast rel = Relation name container relatum ->
  isSigDecl (nodeAt ast container) = true ->
  TypeEnv.envMapOf h env !! rel = None ->
  synth ast fuel env (Some container) h = Some (SigTTag c, h1) ->
  synth ast fuel env (Some relatum) h1 = Some (T, h2) ->
  synth ast (S fuel) env (Some rel) h
    = Some (RelationTTag (nextObj h2) rel c (SigTTag c) T,
            mkHeap (<[env := <[rel := RelationTTag (nextObj h2) rel c (SigTTag c) T]>
                               (TypeEnv.envMapOf (mkHeap (envMaps h2) (S (nextObj h2))) env)]>
                      (envMaps h2))
                   (S (nextObj h2))).
Proof.
  intros Hnode Hsig Hmiss Ec Er.
  rewrite synth_miss_unfold by done. unfold synthNewNode.
  rewrite Hnode, Hsig. unfold mbnd. rewrite Ec, Er. reflexivity.
Qed.

(** X13: synthesizing a relation the environment does not hold.  Outside a
    Sig it is an Error.  Inside a Sig whose own type is [SigTTag c], with the
    relatum of type [T], it is a newly allocated Relation tag owned by [c]:
    joined on [SigTTag c] it gives [T], and it is [sameTypeAs] no Relation
    tag that existed before the call, not even one made for this relation
    in another environment. *)
Theorem synth_Relation :
  forall (ast : Ast) env rel name container relatum h,
    nodeAt ast rel = Relation name container relatum ->
    TypeEnv.lookup env rel h = Some (None, h) ->
    env < nextObj h ->
    (isSigDecl (nodeAt ast container) = false ->
     exists h', Synth ast env (Some rel) h
       (ErrorTypeTag (Some rel) "Relation should have a Concept as its parent") h') /\
    (forall c h1 T h2,
       isSigDecl (nodeAt ast container) = true ->
       Synth ast env (Some container) h (SigTTag c) h1 ->
       Synth ast env (Some relatum) h1 T h2 ->
       exists obj h',
         Synth ast env (Some rel) h (RelationTTag obj rel c (SigTTag c) T) h' /\
         joinOnLeft (RelationTTag obj rel c (SigTTag c) T) (SigTTag c) = Some T /\
         forall obj' rel' c' pst' T',
           obj' < nextObj h ->
           sameTypeAs (RelationTTag obj rel c (SigTTag c) T)
                      (RelationTTag obj' rel' c' pst' T') = false).
Proof.
  intros ast env rel name container relatum h Hnode Hmiss Hlive.
  unfold TypeEnv.lookup in Hmiss. injection Hmiss as Hmiss. split.
  - intros Hns. eexists. exists 1. rewrite synth_miss_unfold by done.
    unfold synthNewNode. rewrite Hnode, Hns. reflexivity.
  - intros c h1 T h2 Hsig [f1 E1] [f2 E2].
    assert (Hn1 : nextObj h <= nextObj h1)
      by (by destruct (proj1 (synth_check_keeps ast f1) _ _ _ _ _ Hlive E1)).
    assert (Hlive1 : env < nextObj h1) by lia.
    assert (Hn2 : nextObj h1 <= nextObj h2)
      by (by destruct (proj1 (synth_check_keeps ast f2) _ _ _ _ _ Hlive1 E2)).
    set (F := f1 `max` f2).
    apply (synth_fuel_le ast f1 F) in E1; [|lia].
    apply (synth_fuel_le ast f2 F) in E2; [|lia].
    exists (nextObj h2). eexists. split; [|split].
    + exists (S F). by eapply synth_Relation_run.
    + simpl. by rewrite Nat.eqb_refl.
    + intros obj' rel' c' pst' T' Hold. simpl. apply Nat.eqb_neq. lia.
Qed.

(** The relation [r : Integer] of [P], synthesized in a fresh environment. *)
Lemma synth_Relation_witness :
  exists h1 h2,
    nodeAt joinAst 1 = Relation "r" 0 2 /\
    TypeEnv.lookup 0 1 oneEnvHeap = Some (None, oneEnvHeap) /\
    0 < nextObj oneEnvHeap /\
    isSigDecl (nodeAt joinAst 0) = true /\
    Synth joinAst 0 (Some 0) oneEnvHeap (SigTTag 0) h1 /\
    Synth joinAst 0 (Some 2) h1 (IntegerTTag None) h2 /\
    exists obj h',
      Synth joinAst 0 (Some 1) oneEnvHeap
        (RelationTTag obj 1 0 (SigTTag 0) (IntegerTTag None)) h' /\
      joinOnLeft (RelationTTag obj 1 0 (SigTTag 0) (IntegerTTag None)) (SigTTag 0)
        = Some (IntegerTTag None).
Proof.
  eexists _, _.
  assert (Hs : Synth joinAst 0 (Some 0) oneEnvHeap (SigTTag 0)
                 (mkHeap {[ 0 := {[ 0 := SigTTag 0 ]} ]} 1))
    by (exists 1; vm_compute; reflexivity).
  assert (Hr : Synth joinAst 0 (Some 2) (mkHeap {[ 0 := {[ 0 := SigTTag 0 ]} ]} 1)
                 (IntegerTTag None)
                 (mkHeap {[ 0 := <[ 2 := IntegerTTag None ]>
                                   {[ 0 := SigTTag 0 ]} ]} 1))
    by (exists 1; vm_compute; reflexivity).
  split; [reflexivity|]. split; [reflexivity|]. split; [simpl; lia|].
  split; [reflexivity|]. split; [exact Hs|]. split; [exact Hr|].
  destruct (proj2 (synth_Relation joinAst 0 1 "r" 0 2 oneEnvHeap eq_refl eq_refl
                     ltac:(simpl; lia)) 0 _ _ _ eq_refl Hs Hr)
    as (obj & h' & HS & Hjoin & _).
  by exists obj, h'.
Defined.

(** X14: a join on a relation the left Sig declares itself.  When the left
    operand has type [SigTTag sig], the first relation of [sig] carrying the
    right-hand name is [rel], declared in [sig] and not yet in the
    environment, and its relatum has type [T], the join has type [T]. *)
Theorem synthJoin_own_relation :
  forall (ast : Ast) env term l r value h sig h1 sigName parents relations
         rel relName relatum h2 T h3,
    nodeAt ast term = Join l r ->
    TypeEnv.lookup env term h = Some (None, h) ->
    Synth ast env (Some l) h (SigTTag sig) h1 ->
    nodeAt ast r = Ref value ->
    nodeAt ast sig = SigDecl sigName parents relations ->
    List.find (fun relNode =>
                 bool_decide (nodeName (nodeAt ast relNode) = Some (refText value)))
              relations = Some rel ->
    nodeAt ast rel = Relation relName sig relatum ->
    TypeEnv.lookup env rel h1 = Some (None, h1) ->
    Synth ast env (Some sig) h1 (SigTTag sig) h2 ->
    Synth ast env (Some relatum) h2 T h3 ->
    exists h', Synth ast env (Some term) h T h'.
Proof.
  intros ast env term l r value h sig h1 sigName parents relations
    rel relName relatum h2 T h3 Hnode Hmiss [fl El] Hright Hsig Hfind Hrel
    Hrelmiss [fs Es] [fr Er].
  unfold TypeEnv.lookup in Hmiss, Hrelmiss.
  injection Hmiss as Hmiss. injection Hrelmiss as Hrelmiss.
  set (F := fl `max` (fs `max` fr)).
  apply (synth_fuel_le ast fl (S F)) in El; [|lia].
  apply (synth_fuel_le ast fs F) in Es; [|lia].
  apply (synth_fuel_le ast fr F) in Er; [|lia].
  eexists. exists (S (S F)). rewrite synth_miss_unfold by done.
  unfold synthNewNode. rewrite Hnode. unfold synthJoin, mbnd.
  rewrite El, Hright. unfold mret at 1. rewrite Hsig, Hfind.
  erewrite synth_Relation_run; [|done|by rewrite Hsig|done|done|done].
  simpl. rewrite Nat.eqb_refl. reflexivity.
Qed.

(** [p `r`] with [p : P] and [r : Integer] declared on [P]. *)
Lemma synthJoin_own_relation_witness :
  exists h1 h2 h3,
    nodeAt joinAst 12 = Join 13 14 /\
    TypeEnv.lookup 0 12 oneEnvHeap = Some (None, oneEnvHeap) /\
    Synth joinAst 0 (Some 13) oneEnvHeap (SigTTag 0) h1 /\
    nodeAt joinAst 14 = Ref (mkReference (Some 1) "r" None) /\
    nodeAt joinAst 0 = SigDecl "P" [] [1] /\
    nodeAt joinAst 1 = Relation "r" 0 2 /\
    TypeEnv.lookup 0 1 h1 = Some (None, h1) /\
    Synth joinAst 0 (Some 0) h1 (SigTTag 0) h2 /\
    Synth joinAst 0 (Some 2) h2 (IntegerTTag None) h3 /\
    exists h', Synth joinAst 0 (Some 12) oneEnvHeap (IntegerTTag None) h'.
Proof.
  eexists _, _, _.
  assert (Hl : Synth joinAst 0 (Some 13) oneEnvHeap (SigTTag 0)
                 (mkHeap {[ 0 := list_to_map [ (10, SigTTag 0); (11, SigTTag 0);
                                               (13, SigTTag 0) ] ]} 1))
    by (exists 4; vm_compute; reflexivity).
  assert (Hs : Synth joinAst 0 (Some 0)
                 (mkHeap {[ 0 := list_to_map [ (10, SigTTag 0); (11, SigTTag 0);
                                               (13, SigTTag 0) ] ]} 1)
                 (SigTTag 0)
                 (mkHeap {[ 0 := list_to_map [ (0, SigTTag 0); (10, SigTTag 0);
                                               (11, SigTTag 0);
                                               (13, SigTTag 0) ] ]} 1))
    by (exists 1; vm_compute; reflexivity).
  assert (Hr : Synth joinAst 0 (Some 2)
                 (mkHeap {[ 0 := list_to_map [ (0, SigTTag 0); (10, SigTTag 0);
                                               (11, SigTTag 0);
                                               (13, SigTTag 0) ] ]} 1)
                 (IntegerTTag None)
                 (mkHeap {[ 0 := list_to_map [ (0, SigTTag 0);
                                               (2, IntegerTTag None);
                                               (10, SigTTag 0); (11, SigTTag 0);
                                               (13, SigTTag 0) ] ]} 1))
    by (exists 1; vm_compute; reflexivity).
  split; [reflexivity|]. split; [reflexivity|]. split; [exact Hl|].
  split; [reflexivity|]. split; [reflexivity|]. split; [reflexivity|].
  split; [reflexivity|]. split; [exact Hs|]. split; [exact Hr|].
  exact (synthJoin_own_relation joinAst 0 12 13 14 _ oneEnvHeap 0 _ "P" [] [1]
           1 "r" 2 _ (IntegerTTag None) _
           eq_refl eq_refl Hl eq_refl eq_refl eq_refl eq_refl eq_refl Hs Hr).
Defined.

(** X15: the two ways a join fails before any relation is looked at or
    found.  When the left operand's type is no Sig tag, the join is an Error
    at the left operand whose message names that type.  When it is
    [SigTTag sig] and no relation declared on [sig] itself carries the
    right-hand name, the join is the Error [Relatum ... not found in ...] at
    the join, whatever the parents of [sig] declare. *)
Theorem synthJoin_errors :
  forall (ast : Ast) env term l r value h leftType h1,
    nodeAt ast term = Join l r ->
    TypeEnv.lookup env term h = Some (None, h) ->
    Synth ast env (Some l) h leftType h1 ->
    nodeAt ast r = Ref value ->
    (isSigTTag leftType = false ->
     exists msg h',
       Synth ast env (Some term) h (ErrorTypeTag (Some l) msg) h' /\
       mentions (toString ast leftType) msg = true) /\
    (forall sig sigName parents relations,
       leftType = SigTTag sig ->
       nodeAt ast sig = SigDecl sigName parents relations ->
       Forall (fun relNode =>
                 nodeName (nodeAt ast relNode) <> Some (refText value)) relations ->
       exists h',
         Synth ast env (Some term) h
           (ErrorTypeTag (Some term)
              ("Relatum " +:+ refText value +:+ " not found in " +:+ sigName)) h').
Proof.
  intros ast env term l r value h leftType h1 Hnode Hmiss HS Hright. split.
  - intros Hns. destruct HS as [fuel El].
    unfold TypeEnv.lookup in Hmiss. injection Hmiss as Hmiss.
    eexists _, _. split.
    + exists (S fuel). rewrite synth_miss_unfold by done.
      unfold synthNewNode. rewrite Hnode. unfold synthJoin, mbnd.
      rewrite El, Hright. unfold mret at 1.
      destruct leftType; try discriminate Hns; reflexivity.
    + apply mentions_later, mentions_end; apply toString_nonempty.
  - intros sig sigName parents relations -> Hsig Hnone.
    apply (synthJoin_searches_own_relations ast env term l r value h sig h1
             sigName parents relations); try done.
    clear Hsig. induction Hnone as [|relNode rels Hne _ IH]; simpl; [done|].
    rewrite bool_decide_eq_false_2 by done. exact IH.
Qed.

(** [x `r`] with [x : S]: [S] declares no [r] of its own. *)
Lemma synthJoin_errors_witness :
  exists h1,
    nodeAt joinAst 6 = Join 7 8 /\
    TypeEnv.lookup 0 6 oneEnvHeap = Some (None, oneEnvHeap) /\
    Synth joinAst 0 (Some 7) oneEnvHeap (SigTTag 3) h1 /\
    nodeAt joinAst 8 = Ref (mkReference (Some 1) "r" None) /\
    nodeAt joinAst 3 = SigDecl "S" [mkReference (Some 0) "P" None] [] /\
    exists h', Synth joinAst 0 (Some 6) oneEnvHeap
                 (ErrorTypeTag (Some 6) "Relatum r not found in S") h'.
Proof.
  eexists.
  assert (Hl : Synth joinAst 0 (Some 7) oneEnvHeap (SigTTag 3)
                 (mkHeap {[ 0 := list_to_map [ (4, SigTTag 3); (5, SigTTag 3);
                                               (7, SigTTag 3) ] ]} 1))
    by (exists 4; vm_compute; reflexivity).
  split; [reflexivity|]. split; [reflexivity|]. split; [exact Hl|].
  split; [reflexivity|]. split; [reflexivity|].
  exact (proj2 (synthJoin_errors joinAst 0 6 7 8 _ oneEnvHeap _ _
                  eq_refl eq_refl Hl eq_refl)
           3 "S" _ [] eq_refl eq_refl (Forall_nil_2 _)).
Defined.

(** ** Writes to environments *)

(** X16: [env.set(n, t)] always succeeds and allocates nothing; afterwards
    [env.lookup(n)] is [t], whatever [env] held for [n] before, and every
    other lookup, in [env] or in any other environment, answers as
    before. *)
Theorem set_then_lookup :
  forall env n (t : TypeTag) h,
    exists h1,
      TypeEnv.set env n t h = Some (tt, h1) /\
      nextObj h1 = nextObj h /\
      fst <$> TypeEnv.lookup env n h1 = Some (Some t) /\
      forall e' n', (e', n') <> (env, n) ->
        fst <$> TypeEnv.lookup e' n' h1 = fst <$> TypeEnv.lookup e' n' h.
Proof.
  intros env n t h. eexists. split; [reflexivity|]. split; [reflexivity|].
  unfold TypeEnv.lookup, TypeEnv.envMapOf. simpl. split.
  - rewrite lookup_insert_eq. simpl. by rewrite lookup_insert_eq.
  - intros e' n' Hne. destruct (decide (e' = env)) as [->|He].
    + rewrite lookup_insert_eq. simpl.
      rewrite lookup_insert_ne by congruence. done.
    + by rewrite lookup_insert_ne.
Qed.

(** X17: the environment [extendWith] returns is a copy.  A later [set] on
    the receiver does not show in the extension, and a later [set] on the
    extension does not show in the receiver. *)
Theorem extendWith_snapshot :
  forall env (pairs : list (NodeId * TypeTag)) h env' h1,
    env < nextObj h ->
    TypeEnv.extendWith env pairs h = Some (env', h1) ->
    forall n (t : TypeTag) h2,
      (TypeEnv.set env n t h1 = Some (tt, h2) ->
       forall m, fst <$> TypeEnv.lookup env' m h2 = fst <$> TypeEnv.lookup env' m h1) /\
      (TypeEnv.set env' n t h1 = Some (tt, h2) ->
       forall m, fst <$> TypeEnv.lookup env m h2 = fst <$> TypeEnv.lookup env m h).
Proof.
  intros env pairs h env' h1 Hlive [= <- <-] n t h2. split.
  - intros [= <-] m. unfold TypeEnv.lookup, TypeEnv.envMapOf. simpl.
    rewrite (lookup_insert_ne _ env) by lia. done.
  - intros [= <-] m. unfold TypeEnv.lookup, TypeEnv.envMapOf. simpl.
    rewrite !(lookup_insert_ne _ (nextObj h)) by lia. done.
Qed.

Lemma extendWith_snapshot_witness :
  exists h1,
    0 < nextObj literalHeap /\
    TypeEnv.extendWith 0 [(12, UnitTTag)] literalHeap = Some (1, h1) /\
    forall n (t : TypeTag) h2,
      (TypeEnv.set 0 n t h1 = Some (tt, h2) ->
       forall m, fst <$> TypeEnv.lookup 1 m h2 = fst <$> TypeEnv.lookup 1 m h1) /\
      (TypeEnv.set 1 n t h1 = Some (tt, h2) ->
       forall m, fst <$> TypeEnv.lookup 0 m h2
                 = fst <$> TypeEnv.lookup 0 m literalHeap).
Proof.
  eexists. split; [simpl; lia|]. split; [reflexivity|].
  apply (extendWith_snapshot 0 [(12, UnitTTag)] literalHeap 1);
    [simpl; lia|reflexivity].
Defined.

(** ** Declarations *)

Lemma SynthAll_length ast env nodes h ts h' :
  SynthAll ast env nodes h ts h' -> List.length ts = List.length nodes.
Proof. induction 1; simpl; congruence. Qed.

Lemma mapM_SynthAll ast env nodes h ts h' :
  SynthAll ast env nodes h ts h' ->
  exists fuel, forall fuel', fuel <= fuel' ->
    mapM (fun ty => synth ast fuel' env (Some ty)) nodes h = Some (ts, h').
Proof.
  induction 1 as [h|n rest h t h1 ts h2 [f1 E1] _ [f2 IH]].
  - exists 0. intros fuel' _. reflexivity.
  - exists (f1 `max` f2). intros fuel' Hle. simpl. unfold mbnd.
    rewrite (synth_fuel_le ast f1 fuel' env (Some n) ltac:(lia) _ _ E1).
    rewrite (IH fuel' ltac:(lia)). reflexivity.
Qed.

Lemma removelast_length_minus {A} (l : list A) :
  List.length (removelast l) = List.length l - 1.
Proof.
  induction l as [|x [|y l] IH]; simpl in *; [done|done|]. rewrite IH. lia.
Qed.

(** X18: synthesizing a function declaration the environment does not hold
    synthesizes its type slots in order.  All slots but the last are
    parameter types: when their number differs from the number of formal
    parameters the declaration is an Error, also when there is no slot at
    all but there are parameters; when it agrees, the declaration is a
    Function tag whose return type is the type of the last slot. *)
Theorem synth_FunDecl :
  forall (ast : Ast) env term types params body h slotTypes h1,
    nodeAt ast term = FunDecl types params body ->
    TypeEnv.lookup env term h = Some (None, h) ->
    SynthAll ast env types h slotTypes h1 ->
    (List.length types - 1 <> List.length params ->
     exists h', Synth ast env (Some term) h
       (ErrorTypeTag (Some term)
          "Number of parameters and parameter types do not match") h') /\
    (forall ret,
       List.length types - 1 = List.length params ->
       last slotTypes = Some ret ->
       exists ps h', Synth ast env (Some term) h (FunctionTTag ps ret) h').
Proof.
  intros ast env term types params body h slotTypes h1 Hnode Hmiss Hall.
  unfold TypeEnv.lookup in Hmiss. injection Hmiss as Hmiss.
  pose proof (SynthAll_length _ _ _ _ _ _ Hall) as Hlen.
  destruct (mapM_SynthAll _ _ _ _ _ _ Hall) as [fuel Hrun].
  specialize (Hrun fuel ltac:(lia)).
  assert (Hunfold :
    synth ast (S fuel) env (Some term) h =
      (do typeTag <-
         functionTTagFromFuncDecl (synth ast fuel) env term types params;
       do _ <- TypeEnv.set env term typeTag;
       mret typeTag) h).
  { rewrite synth_miss_unfold by done. unfold synthNewNode. by rewrite Hnode. }
  split.
  - intros Hne. eexists. exists (S fuel). rewrite Hunfold.
    unfold functionTTagFromFuncDecl, mbnd. rewrite Hrun.
    rewrite removelast_length_minus, Hlen.
    rewrite (proj2 (Nat.eqb_neq _ _) Hne). reflexivity.
  - intros ret Heq Hlast. eexists _, _. exists (S fuel). rewrite Hunfold.
    unfold functionTTagFromFuncDecl, mbnd. rewrite Hrun.
    rewrite removelast_length_minus, Hlen.
    rewrite (proj2 (Nat.eqb_eq _ _) Heq), Hlast. reflexivity.
Qed.

(** [f : Integer => Boolean] with its one parameter. *)
Lemma synth_FunDecl_witness :
  exists h1,
    nodeAt exprAst 20 = FunDecl [21; 22] [23] 24 /\
    TypeEnv.lookup 0 20 oneEnvHeap = Some (None, oneEnvHeap) /\
    SynthAll exprAst 0 [21; 22] oneEnvHeap [IntegerTTag None; BooleanTTag None] h1 /\
    exists ps h', Synth exprAst 0 (Some 20) oneEnvHeap
                    (FunctionTTag ps (BooleanTTag None)) h'.
Proof.
  eexists.
  assert (Hall : SynthAll exprAst 0 [21; 22] oneEnvHeap
                   [IntegerTTag None; BooleanTTag None]
                   (mkHeap {[ 0 := <[ 22 := BooleanTTag None ]>
                                     {[ 21 := IntegerTTag None ]} ]} 1)).
  { eapply SynthAll_cons; [exists 1; vm_compute; reflexivity|].
    eapply SynthAll_cons; [exists 1; vm_compute; reflexivity|].
    apply SynthAll_nil. }
  split; [reflexivity|]. split; [reflexivity|]. split; [exact Hall|].
  exact (proj2 (synth_FunDecl exprAst 0 20 [21; 22] [23] 24 oneEnvHeap _ _
                  eq_refl eq_refl Hall) (BooleanTTag None) eq_refl eq_refl).
Defined.

Lemma mapM_ParamTypePairs ast (params : list NodeId) h :
  Forall (fun p => isParamTypePair (nodeAt ast p) = true) params ->
  exists pairs,
    mapM (fun pair => match nodeAt ast pair with
                      | ParamTypePair p ty =>
                          mret (mkFunctionParameter p (inferTypeAnnot ast ty))
                      | _ => mfail
                      end) params h = Some (pairs, h).
Proof.
  induction 1 as [|p params Hp _ [pairs IH]]; simpl; [by eexists|].
  destruct (nodeAt ast p); try discriminate Hp.
  unfold mbnd, mret at 1. rewrite IH. by eexists.
Qed.

(** X19: predicate declarations are not checked yet.  [check] of a predicate
    declaration is the Error [TODO] at the declaration for every expected
    type and touches nothing; [synth] of one the environment does not hold,
    with [ParamTypePair] parameters, is that same Error. *)
Theorem PredicateDecl_TODO :
  forall (ast : Ast) env term params body h,
    nodeAt ast term = PredicateDecl params body ->
    (forall expected,
       Check ast env term expected h (ErrorTypeTag (Some term) "TODO") h) /\
    (TypeEnv.lookup env term h = Some (None, h) ->
     Forall (fun p => isParamTypePair (nodeAt ast p) = true) params ->
     exists h', Synth ast env (Some term) h (ErrorTypeTag (Some term) "TODO") h').
Proof.
  intros ast env term params body h Hnode. split.
  - intros expected. exists 1. simpl. unfold check_rules. by rewrite Hnode.
  - intros Hmiss Hparams.
    unfold TypeEnv.lookup in Hmiss. injection Hmiss as Hmiss.
    destruct (mapM_ParamTypePairs ast params h Hparams) as [pairs Hrun].
    eexists. exists 2. rewrite synth_miss_unfold by done.
    unfold synthNewNode. rewrite Hnode.
    unfold predicateTTagFromPredDecl, mbnd. rewrite Hrun. unfold mret at 1.
    simpl. unfold check_rules. rewrite Hnode. reflexivity.
Qed.

(** The predicate over [a : Integer]. *)
Lemma PredicateDecl_TODO_witness :
  nodeAt opsAst 8 = PredicateDecl [9] 4 /\
  (forall expected,
     Check opsAst 0 8 expected oneEnvHeap (ErrorTypeTag (Some 8) "TODO") oneEnvHeap) /\
  TypeEnv.lookup 0 8 oneEnvHeap = Some (None, oneEnvHeap) /\
  Forall (fun p => isParamTypePair (nodeAt opsAst p) = true) [9] /\
  exists h', Synth opsAst 0 (Some 8) oneEnvHeap (ErrorTypeTag (Some 8) "TODO") h'.
Proof.
  assert (Hparams : Forall (fun p => isParamTypePair (nodeAt opsAst p) = true) [9])
    by (by repeat constructor).
  destruct (PredicateDecl_TODO opsAst 0 8 [9] 4 oneEnvHeap eq_refl) as [Hc Hs].
  split; [reflexivity|]. split; [exact Hc|]. split; [reflexivity|].
  split; [exact Hparams|]. exact (Hs eq_refl Hparams).
Defined.

(** ** Parameters under a function declaration *)

Lemma lastBinding_fresh n (pairs : list (NodeId * TypeTag)) :
  n ∉ pairs.*1 -> lastBinding n pairs = None.
Proof.
  unfold lastBinding. induction pairs as [|[k t] pairs IH]; simpl; [done|].
  intros [Hne Hni]%not_elem_of_cons.
  rewrite (proj2 (Nat.eqb_neq k n)) by done. by apply IH.
Qed.

Lemma lastBinding_NoDup (pairs : list (NodeId * TypeTag)) n t :
  NoDup pairs.*1 -> (n, t) ∈ pairs -> lastBinding n pairs = Some t.
Proof.
  induction pairs as [|[k t'] pairs IH]; simpl; [by intros _ ?%elem_of_nil|].
  intros [Hk Hnd]%NoDup_cons Hin.
  unfold lastBinding in *. simpl.
  destruct (decide (k = n)) as [->|Hne].
  - rewrite Nat.eqb_refl.
    assert (List.filter (fun pair => Nat.eqb pair.1 n) pairs = []) as ->.
    { pose proof (lastBinding_fresh n pairs Hk) as Hnone.
      unfold lastBinding in Hnone.
      destruct (List.filter _ pairs) as [|x xs] eqn:E; [done|].
      destruct (last (x :: xs)) eqn:El; [done|].
      by apply last_None in El. }
    apply elem_of_cons in Hin as [[= ->]|Hin]; [done|].
    exfalso. apply Hk. apply list_elem_of_fmap. by exists (n, t).
  - rewrite (proj2 (Nat.eqb_neq k n)) by done.
    apply IH; [done|]. apply elem_of_cons in Hin as [[= -> ->]|Hin]; done.
Qed.

Lemma parameterBindings_fst ps : (parameterBindings ps).*1 = List.map param ps.
Proof.
  unfold parameterBindings. induction ps as [|[p t] ps IH]; simpl; [done|].
  by rewrite <- IH.
Qed.

Lemma parameterBindings_elem ps (fp : FunctionParameter) :
  fp ∈ ps -> (param fp, type fp) ∈ parameterBindings ps.
Proof.
  unfold parameterBindings. induction 1 as [[p t] ps|[p t] q ps _ IH]; simpl.
  - by left.
  - by right.
Qed.

(** X20: how a parameter gets its type in a function body.  In the
    environment [check] builds for the body of a function declaration, by
    extending [env] with the parameters of the expected function tag, each
    parameter node is bound to its declared type (the parameters being
    distinct nodes), so [synth] of the parameter returns that type from the
    lookup alone and leaves the heap as it is. *)
Theorem synth_parameter_in_body :
  forall (ast : Ast) env (ps : list FunctionParameter) h env' h1,
    env < nextObj h ->
    NoDup (List.map param ps) ->
    TypeEnv.extendWith env (parameterBindings ps) h = Some (env', h1) ->
    forall fp, fp ∈ ps ->
      forall fuel,
        synth ast (S fuel) env' (Some (param fp)) h1 = Some (type fp, h1).
Proof.
  intros ast env ps h env' h1 Hlive Hnd [= <- <-] fp Hfp fuel.
  apply synth_cache_hit. unfold TypeEnv.envMapOf. simpl.
  rewrite lookup_insert_eq. simpl.
  rewrite mapFromEntries_app_lookup, !mapFromEntries_map_to_list.
  rewrite mapFromEntries_lookup.
  rewrite (lastBinding_NoDup _ (param fp) (type fp)); [done| |].
  - by rewrite parameterBindings_fst.
  - by apply parameterBindings_elem.
Qed.

(** The parameter [n : Integer] of [f], under the check of [f]. *)
Lemma synth_parameter_in_body_witness :
  exists h1,
    0 < nextObj oneEnvHeap /\
    NoDup (List.map param [mkFunctionParameter 23 (IntegerTTag None)]) /\
    TypeEnv.extendWith 0
      (parameterBindings [mkFunctionParameter 23 (IntegerTTag None)]) oneEnvHeap
      = Some (1, h1) /\
    forall fuel, synth exprAst (S fuel) 1 (Some 23) h1 = Some (IntegerTTag None, h1).
Proof.
  eexists.
  assert (Hnd : NoDup (List.map param [mkFunctionParameter 23 (IntegerTTag None)]))
    by (simpl; apply NoDup_singleton).
  split; [simpl; lia|]. split; [exact Hnd|]. split; [reflexivity|].
  exact (synth_parameter_in_body exprAst 0
           [mkFunctionParameter 23 (IntegerTTag None)] oneEnvHeap 1 _
           ltac:(simpl; lia) Hnd eq_refl
           (mkFunctionParameter 23 (IntegerTTag None))
           ltac:(apply list_elem_of_singleton; reflexivity)).
Defined.

(** ** References *)

(** X21: synthesizing a reference the environment does not hold.  A linked
    reference has the type of its target.  An unlinked one is an Error at
    the reference whose message names the reference text. *)
Theorem synth_Ref :
  forall (ast : Ast) env term value h,
    nodeAt ast term = Ref value ->
    TypeEnv.lookup env term h = Some (None, h) ->
    (forall target t h1,
       ref value = Some target ->
       Synth ast env (Some target) h t h1 ->
       exists h', Synth ast env (Some term) h t h') /\
    (ref value = None ->
     exists msg h',
       Synth ast env (Some term) h (ErrorTypeTag (Some term) msg) h' /\
       (refText value <> "" -> mentions (refText value) msg = true)).
Proof.
  intros ast env term value h Hnode Hmiss.
  unfold TypeEnv.lookup in Hmiss. injection Hmiss as Hmiss. split.
  - intros target t h1 Href [fuel E]. eexists. exists (S fuel).
    rewrite synth_miss_unfold by done. unfold synthNewNode. rewrite Hnode.
    unfold synthRef. rewrite Href. unfold mbnd. rewrite E. reflexivity.
  - intros Href. eexists _, _. split.
    + exists 1. rewrite synth_miss_unfold by done. unfold synthNewNode.
      rewrite Hnode. unfold synthRef. rewrite Href. reflexivity.
    + intros Hne. unfold getRefInfoForUser.
      by apply mentions_later, mentions_later, mentions_here.
Qed.

(** The reference [x] to [x : S]. *)
Lemma synth_Ref_witness :
  exists h1,
    nodeAt joinAst 7 = Ref (mkReference (Some 4) "x" None) /\
    TypeEnv.lookup 0 7 oneEnvHeap = Some (None, oneEnvHeap) /\
    Synth joinAst 0 (Some 4) oneEnvHeap (SigTTag 3) h1 /\
    exists h', Synth joinAst 0 (Some 7) oneEnvHeap (SigTTag 3) h'.
Proof.
  eexists.
  assert (Ht : Synth joinAst 0 (Some 4) oneEnvHeap (SigTTag 3)
                 (mkHeap {[ 0 := list_to_map [ (4, SigTTag 3);
                                               (5, SigTTag 3) ] ]} 1))
    by (exists 3; vm_compute; reflexivity).
  split; [reflexivity|]. split; [reflexivity|]. split; [exact Ht|].
  exact (proj1 (synth_Ref joinAst 0 7 _ oneEnvHeap eq_refl eq_refl)
           4 (SigTTag 3) _ eq_refl Ht).
Defined.
